(** * RNLI launches sensor: the coordinator's filter/sort step and the
      sensor's state and attributes (custom_components/RNLI/sensor.py)

    The integration polls a JSON endpoint, keeps the launches of one
    station, most recent first, and shows the latest one.  This file embeds
    [RNLIUpdateCoordinator._async_update_data], [RNLILaunchSensor.state] and
    [RNLILaunchSensor.extra_state_attributes] as functions over decoded JSON
    values and proves what they do, including where they raise. *)

From Stdlib Require Import String Ascii ZArith QArith List Permutation Sorted.
From Stdlib Require OrderedTypeEx.
From stdpp Require Import gmap strings list fin_maps pretty sorting.
Close Scope Q_scope.
Open Scope string_scope.
Set Warnings "-register-all".

(** ** Decoded JSON values and the interpreter operations used on them *)

Module Py.

(** What [response.json()] returns.  A number stands for its exact value
    (Python compares int, float and bool by value); a string for its UTF-8
    bytes, whose lexicographic order is the code point order Python compares
    str by; an object for its items in insertion order (a Python dict has
    each key once, see [dict_wf]).  Python's None is [JNull]. *)
Inductive json : Type :=
| JNull
| JBool (b : bool)
| JNum (q : Q)
| JStr (s : string)
| JArr (elems : list json)
| JObj (fields : list (string * json)).

Definition dict : Type := list (string * json).

Definition dict_wf (d : dict) : Prop := NoDup (d.*1).

(** Subscript-free access: [d.get(k, dflt)] and [d.get(k)]. *)
Fixpoint get_default (d : dict) (k : string) (dflt : json) : json :=
  match d with
  | [] => dflt
  | (k', v) :: d' => if String.eqb k' k then v else get_default d' k dflt
  end.

Definition get (d : dict) (k : string) : json := get_default d k JNull.

Fixpoint has_key (d : dict) (k : string) : bool :=
  match d with
  | [] => false
  | (k', _) :: d' => String.eqb k' k || has_key d' k
  end.

Definition num_of_bool (b : bool) : Q := if b then 1%Q else 0%Q.

(** [a == b]. *)
Fixpoint py_eq (a b : json) {struct a} : bool :=
  match a, b with
  | JNull, JNull => true
  | JBool x, JBool y => Qeq_bool (num_of_bool x) (num_of_bool y)
  | JBool x, JNum y => Qeq_bool (num_of_bool x) y
  | JNum x, JBool y => Qeq_bool x (num_of_bool y)
  | JNum x, JNum y => Qeq_bool x y
  | JStr s, JStr t => String.eqb s t
  | JArr l, JArr m =>
      (fix all2 (l m : list json) {struct l} : bool :=
         match l, m with
         | [], [] => true
         | x :: l', y :: m' => py_eq x y && all2 l' m'
         | _, _ => false
         end) l m
  | JObj f, JObj g =>
      Nat.eqb (length f) (length g) &&
      (fix sub (f : list (string * json)) {struct f} : bool :=
         match f with
         | [] => true
         | (k, v) :: f' => has_key g k && py_eq v (get g k) && sub f'
         end) f
  | _, _ => false
  end.

Definition Qlt_bool (x y : Q) : bool := negb (Qle_bool y x).

(** [a < b]; [None] where Python raises TypeError ("'<' not supported
    between instances of ...").  Lists compare at their first differing
    position. *)
Fixpoint py_lt (a b : json) {struct a} : option bool :=
  match a, b with
  | JBool x, JBool y => Some (Qlt_bool (num_of_bool x) (num_of_bool y))
  | JBool x, JNum y => Some (Qlt_bool (num_of_bool x) y)
  | JNum x, JBool y => Some (Qlt_bool x (num_of_bool y))
  | JNum x, JNum y => Some (Qlt_bool x y)
  | JStr s, JStr t => Some (String.ltb s t)
  | JArr l, JArr m =>
      (fix lex (l m : list json) {struct l} : option bool :=
         match l, m with
         | [], [] => Some false
         | [], _ :: _ => Some true
         | _ :: _, [] => Some false
         | x :: l', y :: m' => if py_eq x y then lex l' m' else py_lt x y
         end) l m
  | _, _ => None
  end.

(** The exceptions that can reach the handlers of [_async_update_data] and
    of [state]: asyncio's TimeoutError, raised when [async_timeout.timeout]
    expires; the aiohttp classes, all subclasses of aiohttp.ClientError
    (connection, DNS and TLS failures; [raise_for_status]; [response.json()]
    on a body not served as JSON, a subclass of ClientResponseError); the
    json module's JSONDecodeError, a subclass of ValueError; and the
    interpreter's own AttributeError, TypeError (for a value that cannot be
    iterated, a [<] between unordered types, a [fromisoformat] argument that
    is not a str) and ValueError. *)
Inductive exn : Type :=
| TimeoutError
| ClientConnectionError (text : string)
| ClientResponseError (status : Z)
| ContentTypeError (status : Z)
| OtherClientError (text : string)
| JSONDecodeError (text : string)
| AttributeError (attr : string)
| TypeError_not_iterable
| TypeError_lt
| TypeError_fromisoformat
| ValueError (text : string).

Definition isinstance_ClientError (e : exn) : bool :=
  match e with
  | ClientConnectionError _ | ClientResponseError _
  | ContentTypeError _ | OtherClientError _ => true
  | _ => false
  end.

Definition isinstance_ValueError (e : exn) : bool :=
  match e with
  | ValueError _ | JSONDecodeError _ => true
  | _ => false
  end.

(** A computation that returns or raises. *)
Inductive result (E A : Type) : Type :=
| Ok (a : A)
| Raise (e : E).
Arguments Ok {E A} a.
Arguments Raise {E A} e.

Definition bind {E A B} (r : result E A) (k : A -> result E B) : result E B :=
  match r with
  | Ok a => k a
  | Raise e => Raise e
  end.

Definition try_except {E F A} (r : result E A) (h : E -> result F A) : result F A :=
  match r with
  | Ok a => Ok a
  | Raise e => h e
  end.

End Py.
Export Py.

Notation "x <- r ;; k" := (bind r (fun x => k))
  (at level 100, r at next level, right associativity).

Module PyList.

(** [for x in v]: a list yields its elements, a dict its keys, a str its
    characters; nothing else can be iterated. *)
Definition iter (v : json) : result exn (list json) :=
  match v with
  | JArr l => Ok l
  | JObj f => Ok (map (fun kv => JStr kv.1) f)
  | JStr s => Ok (map (fun c => JStr (String c EmptyString)) (list_ascii_of_string s))
  | _ => Raise TypeError_not_iterable
  end.

(** [l.sort(key=key, reverse=True)]: the keys are computed once, the sort
    is stable and compares keys with [<] only; with [reverse=True] larger
    keys come first and elements with equal keys keep their order.  Modelled
    by a stable insertion sort over the decorated list, which raises where
    one of its comparisons does. *)
Section sort.
Context {A : Type}.

Fixpoint insert_reverse (kx : json) (x : A) (l : list (json * A))
    : result exn (list (json * A)) :=
  match l with
  | [] => Ok [(kx, x)]
  | (ky, y) :: l' =>
      match py_lt kx ky with
      | None => Raise TypeError_lt
      | Some true => l'' <- insert_reverse kx x l' ;; Ok ((ky, y) :: l'')
      | Some false => Ok ((kx, x) :: (ky, y) :: l')
      end
  end.

Fixpoint sort_decorated (l : list (json * A)) : result exn (list (json * A)) :=
  match l with
  | [] => Ok []
  | (kx, x) :: l' => s <- sort_decorated l' ;; insert_reverse kx x s
  end.

Definition sort_reverse (key : A -> json) (l : list A) : result exn (list A) :=
  s <- sort_decorated (map (fun x => (key x, x)) l) ;; Ok (s.*2).
End sort.

End PyList.
Export PyList.

(** ** The coordinator's update step (sensor.py, lines 55 to 95) *)

Module Coordinator.

(** What the awaited calls of the try block produce before the filter
    runs: [session.get], [raise_for_status] or [response.json()] raised
    (or the ten second timeout around them fired), or the body was decoded
    to [data]. *)
Inductive response : Type :=
| Raised (err : exn)
| Body (data : json).

(** [UpdateFailed(f"{prefix}{err}")], raised [from err]: the message is the
    prefix followed by the interpreter's rendering of [err], kept here as
    the exception itself. *)
Inductive UpdateFailed : Type :=
| UpdateFailed_from (message_prefix : string) (err : exn).

Definition message_prefix_of (u : UpdateFailed) : string :=
  match u with UpdateFailed_from p _ => p end.

Definition cause_of (u : UpdateFailed) : exn :=
  match u with UpdateFailed_from _ e => e end.

(** The comprehension
    [[launch for launch in data if launch.get("shortName") == station]]:
    only a dict has [get]. *)
Fixpoint comprehension (station_short_name : string) (elems : list json)
    : result exn (list dict) :=
  match elems with
  | [] => Ok []
  | JObj launch :: rest =>
      out <- comprehension station_short_name rest ;;
      Ok (if py_eq (get launch "shortName") (JStr station_short_name)
          then launch :: out else out)
  | _ :: _ => Raise (AttributeError "get")
  end.

Definition launchDate_key (x : dict) : json := get_default x "launchDate" (JStr "").

(** Lines 81 to 90: filter, then sort most recent first. *)
Definition filter_sort (station_short_name : string) (data : json)
    : result exn (list dict) :=
  elems <- iter data ;;
  station_launches <- comprehension station_short_name elems ;;
  sort_reverse launchDate_key station_launches.

Definition _async_update_data (station_short_name : string) (r : response)
    : result UpdateFailed (list dict) :=
  try_except
    (data <- match r with Raised err => Raise err | Body data => Ok data end ;;
     filter_sort station_short_name data)
    (fun err =>
       if isinstance_ClientError err
       then Raise (UpdateFailed_from "Error fetching data from RNLI API: " err)
       else Raise (UpdateFailed_from "Unknown error parsing RNLI API data: " err)).

End Coordinator.
Export Coordinator.

(** ** datetime: the two library calls of [state] *)

Module Datetime.

(** A datetime value; [tzinfo] is the fixed UTC offset in microseconds,
    [None] for a naive value. *)
Record datetime : Type := mk_datetime {
  year : N; month : N; day : N;
  hour : N; minute : N; second : N; microsecond : N;
  tzinfo : option Z
}.

Definition digit (c : ascii) : option N :=
  let n := N_of_ascii c in
  if (48 <=? n)%N && (n <=? 57)%N then Some (n - 48)%N else None.

Fixpoint number_from (acc : N) (cs : list ascii) : option N :=
  match cs with
  | [] => Some acc
  | c :: cs' =>
      match digit c with
      | Some d => number_from (10 * acc + d)%N cs'
      | None => None
      end
  end.

Definition number (cs : list ascii) : option N :=
  match cs with
  | [] => None
  | _ => number_from 0%N cs
  end.

Definition is_leap (y : N) : bool :=
  ((y mod 4 =? 0) && (negb (y mod 100 =? 0) || (y mod 400 =? 0)))%N.

Definition days_in_month (y m : N) : N :=
  match m with
  | 2%N => if is_leap y then 29%N else 28%N
  | 4%N | 6%N | 9%N | 11%N => 30%N
  | _ => 31%N
  end.

Definition pad (width : nat) (n : N) : string :=
  let s := pretty n in
  String.concat "" (repeat "0" (width - String.length s)) ++ s.

(** HH[:MM[:SS[.fff[fff]]]] as hour, minute, second, microsecond. *)
Definition parse_hh_mm_ss_ff (cs : list ascii) : option (N * N * N * N) :=
  let fraction (fs : list ascii) :=
    match fs with
    | "."%char :: ds =>
        match length ds, number ds with
        | 3%nat, Some f => Some (f * 1000)%N
        | 6%nat, Some f => Some f
        | _, _ => None
        end
    | [] => Some 0%N
    | _ => None
    end in
  match cs with
  | h1 :: h2 :: rest =>
      h ← number [h1; h2];
      match rest with
      | [] => Some (h, 0, 0, 0)%N
      | ":"%char :: m1 :: m2 :: rest =>
          m ← number [m1; m2];
          match rest with
          | [] => Some (h, m, 0, 0)%N
          | ":"%char :: s1 :: s2 :: rest =>
              s ← number [s1; s2];
              f ← fraction rest;
              Some (h, m, s, f)
          | _ => None
          end
      | _ => None
      end
  | _ => None
  end.

(** Splits a time at its first '-', or else its first '+'. *)
Fixpoint split_at (sign : ascii) (cs : list ascii) : option (list ascii * list ascii) :=
  match cs with
  | [] => None
  | c :: cs' =>
      if Ascii.eqb c sign then Some ([], cs')
      else '(l, r) ← split_at sign cs'; Some (c :: l, r)
  end.

Definition parse_time (cs : list ascii) : option (N * N * N * N * option Z) :=
  let with_offset (sign : Z) (l r : list ascii) :=
    t ← parse_hh_mm_ss_ff l;
    if bool_decide (length r ∈ [5; 8; 15]%nat) then
      '(oh, om, os, ous) ← parse_hh_mm_ss_ff r;
      let us := ((((oh * 60 + om) * 60 + os) * 1000000) + ous)%N in
      if (us <? 86400000000%N)%N then Some (t, Some (sign * Z.of_N us)%Z) else None
    else None in
  match split_at "-" cs, split_at "+" cs with
  | Some (l, r), _ => with_offset (-1)%Z l r
  | None, Some (l, r) => with_offset 1%Z l r
  | None, None => t ← parse_hh_mm_ss_ff cs; Some (t, None)
  end.

(** [datetime.fromisoformat] on a str, for the grammar the library documents,
    YYYY-MM-DD[*HH[:MM[:SS[.fff[fff]]]][+HH:MM[:SS[.ffffff]]]] with any one
    character for *; [None] is ValueError.  Later releases of the library
    read further ISO 8601 forms, so [state] below takes the parser as a
    parameter and this one serves as an instance. *)
Definition fromisoformat (date_string : string) : option datetime :=
  match list_ascii_of_string date_string with
  | y1 :: y2 :: y3 :: y4 :: "-"%char :: m1 :: m2 :: "-"%char :: d1 :: d2 :: rest =>
      y ← number [y1; y2; y3; y4];
      m ← number [m1; m2];
      d ← number [d1; d2];
      '(hh, mm, ss, us, tz) ←
        match rest with
        | [] => Some (0, 0, 0, 0, None)%N
        | _ :: tstr => parse_time tstr
        end;
      if ((1 <=? y) && (1 <=? m) && (m <=? 12) && (1 <=? d) && (d <=? days_in_month y m)
          && (hh <? 24) && (mm <? 60) && (ss <? 60))%N
      then Some (mk_datetime y m d hh mm ss us tz)
      else None
  | _ => None
  end.

(** [dt.isoformat()]: YYYY-MM-DDTHH:MM:SS, then .ffffff when the
    microsecond is not zero, then the offset +HH:MM[:SS[.ffffff]] when the
    value is aware. *)
Definition isoformat (dt : datetime) : string :=
  let frac (us : N) := if (us =? 0)%N then "" else "." ++ pad 6 us in
  pad 4 (year dt) ++ "-" ++ pad 2 (month dt) ++ "-" ++ pad 2 (day dt) ++ "T" ++
  pad 2 (hour dt) ++ ":" ++ pad 2 (minute dt) ++ ":" ++ pad 2 (second dt) ++
  frac (microsecond dt) ++
  match tzinfo dt with
  | None => ""
  | Some off =>
      let us := Z.to_N (Z.abs off) in
      let s := (us / 1000000)%N in
      (if (off <? 0)%Z then "-" else "+") ++
      pad 2 (s / 3600)%N ++ ":" ++ pad 2 ((s / 60) mod 60)%N ++
      (if (s mod 60 =? 0)%N && (us mod 1000000 =? 0)%N then ""
       else ":" ++ pad 2 (s mod 60)%N ++ frac (us mod 1000000)%N)
  end.

End Datetime.

(** ** The sensor entity (sensor.py, lines 98 to 159) *)

Module Sensor.
Import Datetime.

(** Data source attribution. *)
Definition ATTRIBUTION : string := "Data provided by RNLI Web API".

(** The host platform's attribute name for it (homeassistant.const). *)
Definition ATTR_ATTRIBUTION : string := "attribution".

(** The keys of the latest launch that the loop of
    [extra_state_attributes] skips. *)
Definition skipped_keys : list string :=
  ["id"; "lifeboat_IdNo"; "title"; "website"; "shortName"; "launchDate"].

(** [datetime.fromisoformat(v)] for any value [v]: only a str is parsed. *)
Definition fromisoformat_value (parse : string -> option datetime) (v : json)
    : result exn datetime :=
  match v with
  | JStr s =>
      match parse s with
      | Some dt => Ok dt
      | None => Raise (ValueError s)
      end
  | _ => Raise TypeError_fromisoformat
  end.

(** The [state] property.  [data] is [self.coordinator.data]: None before
    the first successful update, then the list [_async_update_data]
    returned.  [parse] is [datetime.fromisoformat] on a str. *)
Definition state (parse : string -> option datetime) (data : option (list dict))
    : result exn string :=
  match data with
  | Some (latest_launch :: _) =>
      try_except
        (dt <- fromisoformat_value parse (get latest_launch "launchDate") ;;
         Ok (isoformat dt))
        (fun err => if isinstance_ValueError err then Ok "unknown" else Raise err)
  | _ => Ok "unknown"
  end.

(** The body of the loop over [latest_launch.items()]. *)
Definition copy_item (attributes : gmap string json) (item : string * json)
    : gmap string json :=
  let '(key, value) := item in
  if bool_decide (key ∈ skipped_keys) then attributes
  else <[key := value]> attributes.

(** The [extra_state_attributes] property, for the sensor of station
    [station_short_name]. *)
Definition extra_state_attributes (station_short_name : string)
    (data : option (list dict)) : gmap string json :=
  let attributes : gmap string json :=
    <["station_monitored" := JStr station_short_name]>
      (<[ATTR_ATTRIBUTION := JStr ATTRIBUTION]> ∅) in
  match data with
  | Some (latest_launch :: _) =>
      let attributes := <["launch_id" := get latest_launch "id"]> attributes in
      let attributes := <["lifeboat_id" := get latest_launch "lifeboat_IdNo"]> attributes in
      let attributes := <["station_title" := get latest_launch "title"]> attributes in
      let attributes := <["station_website" := get latest_launch "website"]> attributes in
      foldl copy_item attributes latest_launch
  | _ =>
      <["last_launch_info" := JStr "No recent launches found for this station."]>
        attributes
  end.

End Sensor.
Export Sensor.

(** ** The cache around the update step *)

Module Cache.

(** Modelled from the spec: the coordinator's cache entry (section 3).
    sensor.py inherits the cache and its refresh from the host platform's
    DataUpdateCoordinator base class, whose code is not part of the sources;
    the entry point that class calls, [_async_update_data], is the one
    above. *)
Record CacheEntry : Type := mk_cache {
  data : list dict;
  lastSuccessTime : option N;
  lastError : option UpdateFailed
}.

(** Modelled from the spec: the initial entry, empty and without error
    (section 4.3). *)
Definition empty_cache : CacheEntry :=
  {| data := []; lastSuccessTime := None; lastError := None |}.

(** Modelled from the spec: one refresh attempt at time [now], the base
    class's refresh around [_async_update_data] (section 4.3).  On success
    it replaces [data], clears [lastError] and updates [lastSuccessTime]; on
    failure it leaves [data] as it was and records the error. *)
Definition refresh_now (station_short_name : string) (now : N)
    (c : CacheEntry) (r : response) : CacheEntry :=
  match _async_update_data station_short_name r with
  | Ok launches =>
      {| data := launches; lastSuccessTime := Some now; lastError := None |}
  | Raise err =>
      {| data := data c; lastSuccessTime := lastSuccessTime c; lastError := Some err |}
  end.

(** Modelled from the spec: the read of the current snapshot
    (section 4.3). *)
Definition get_cached (c : CacheEntry) : CacheEntry := c.

End Cache.
Export Cache.

(** ** Vocabulary of the statements *)

Module Spec.

(** The record's station field is the string [s]. *)
Definition has_station (s : string) (x : dict) : bool :=
  match get x "shortName" with
  | JStr t => String.eqb t s
  | _ => false
  end.

(** The text of a sort key; keys that are not strings have none. *)
Definition key_text (k : json) : string :=
  match k with
  | JStr d => d
  | _ => ""
  end.

(** The record's launchDate, the empty string when it has none. *)
Definition date_of (x : dict) : string := key_text (launchDate_key x).

(** The record's launchDate is absent or a string. *)
Definition str_dated (x : dict) : Prop := ∃ d, launchDate_key x = JStr d.

Definition str_keyed {A} (key : A → json) (l : list A) : Prop :=
  Forall (λ x, ∃ d, key x = JStr d) l.

(** Larger keys first. *)
Definition descending_by {A} (key : A → json) (x y : A) : Prop :=
  String.leb (key_text (key y)) (key_text (key x)) = true.

(** The elements of [l] whose key reads [d], in the order [l] has them. *)
Definition with_key {A} (key : A → json) (d : string) (l : list A) : list A :=
  List.filter (λ x, String.eqb (key_text (key x)) d) l.

(** Most recent first. *)
Definition descending : relation dict := descending_by launchDate_key.

(** The records of [l] dated [d], in the order [l] has them. *)
Definition dated : string → list dict → list dict := with_key launchDate_key.

(** The two message prefixes of the update step's handlers. *)
Definition fetching_prefix : string := "Error fetching data from RNLI API: ".
Definition parsing_prefix : string := "Unknown error parsing RNLI API data: ".

(** The example response and its records (section 8 of the specification,
    item 6); [rest] stands for the fields the example leaves out. *)
Definition jan : dict :=
  [("shortName", JStr "ABC"); ("title", JStr "A Station");
   ("launchDate", JStr "2024-01-01T10:00:00+00:00"); ("id", JStr "1")].
Definition feb : dict :=
  [("shortName", JStr "ABC"); ("title", JStr "A Station");
   ("launchDate", JStr "2024-02-01T09:00:00+00:00"); ("id", JStr "2")].
Definition xyz (rest : dict) : dict := ("shortName", JStr "XYZ") :: rest.
Definition example_body (rest : dict) : response :=
  Body (JArr [JObj jan; JObj feb; JObj (xyz rest)]).

(** Further records used as inputs below. *)
Definition undated : dict := [("shortName", JStr "ABC"); ("id", JStr "3")].
Definition null_dated : dict :=
  [("shortName", JStr "ABC"); ("launchDate", JNull); ("id", JStr "4")].
Definition unnamed : dict :=
  [("title", JStr "A Station"); ("launchDate", JStr "2024-03-01T08:00:00+00:00")].
Definition with_extras : dict :=
  [("shortName", JStr "ABC"); ("launchDate", JStr "2024-02-01T09:00:00+00:00");
   ("id", JStr "2"); ("lifeboatNumber", JStr "17-22"); ("crew", JNum 6)].
Definition renaming_station : dict :=
  [("id", JStr "1"); ("station_monitored", JStr "X")].
Definition renaming_id : dict := [("launch_id", JStr "X")].

End Spec.
Export Spec.

(** ** Truth values and dict keys *)

Module PyTruth.

(** [bool(v)], the test of [if v] and of [v and ...]. *)
Definition truthy (v : json) : bool :=
  match v with
  | JNull => false
  | JBool b => b
  | JNum q => negb (Qeq_bool q 0)
  | JStr s => negb (String.eqb s "")
  | JArr l => negb (Nat.eqb (length l) 0)
  | JObj f => negb (Nat.eqb (length f) 0)
  end.

(** Whether [v] can be a dict key: lists and dicts cannot be hashed. *)
Definition hashable (v : json) : bool :=
  match v with
  | JArr _ | JObj _ => false
  | _ => true
  end.

End PyTruth.
Export PyTruth.

(** ** The sensor platform's setup and the entity's identity
       (sensor.py, lines 30 to 69 and 101 to 118) *)

Module Platform.

Section names.
(** [DOMAIN] is imported from const.py; [lower] is [str.lower]. *)
Variable DOMAIN : string.
Variable lower : string → string.

(** [s.replace(' ', '_')]. *)
Fixpoint replace_space (s : string) : string :=
  match s with
  | EmptyString => EmptyString
  | String c s' => String (if Ascii.eqb c " " then "_"%char else c) (replace_space s')
  end.

(** The coordinator's name (line 67). *)
Definition coordinator_name (station_short_name : string) : string :=
  DOMAIN ++ "_" ++ station_short_name.

(** The entity's fields set by [RNLILaunchSensor.__init__]. *)
Record sensor : Type := mk_sensor {
  _station_short_name : string;
  _name : string;
  _unique_id : string
}.

Definition RNLILaunchSensor (station_short_name : string) : sensor :=
  {| _station_short_name := station_short_name;
     _name := "RNLI " ++ station_short_name ++ " Latest Launch";
     _unique_id :=
       DOMAIN ++ "_" ++ replace_space (lower station_short_name) ++ "_latest_launch" |}.

Definition name (e : sensor) : string := _name e.
Definition unique_id (e : sensor) : string := _unique_id e.
Definition icon (e : sensor) : string := "mdi:boat".

(** How [async_setup_entry] ends: it logged an error and returned without
    an entity; a call into the host platform raised; the entity's
    constructor raised; or the entity was handed to [async_add_entities]. *)
Inductive setup_outcome : Type :=
| NoStation
| HostRaised
| ConstructorRaised (err : exn)
| EntityAdded (e : sensor).

(** [async_setup_entry] on the entry's data.  [host_ok] tells whether the
    calls into the host platform that come before the entity's fields are
    set returned: the client session and the base class constructor in
    [RNLIUpdateCoordinator.__init__], [async_config_entry_first_refresh],
    and the base class constructor of the entity.  Only a str has
    [lower]. *)
Definition async_setup_entry (entry_data : dict) (host_ok : bool)
    : setup_outcome :=
  let station_short_name := get entry_data "station_short_name" in
  if negb (truthy station_short_name) then NoStation
  else if negb host_ok then HostRaised
  else match station_short_name with
       | JStr s => EntityAdded (RNLILaunchSensor s)
       | _ => ConstructorRaised (AttributeError "lower")
       end.
End names.

End Platform.

(** ** The configuration flow's station list (config_flow.py) *)

Module ConfigFlow.

(** [self.available_stations]: short name to title, in insertion order. *)
Definition stations : Type := list (json * json).

(** [k in d]. *)
Definition contains (k : json) (d : stations) : bool :=
  existsb (λ p, py_eq p.1 k) d.

(** What the loop can raise besides the interpreter's errors above:
    TypeError for a key that cannot be hashed. *)
Inductive flow_exn : Type :=
| Interpreter (err : exn)
| TypeError_unhashable.

(** The loop of lines 49 to 53 over the elements of the response, from
    the stations known so far: the stations after it, and the exception if
    it raised.  The dict is updated in place, so what was added before an
    exception stays. *)
Fixpoint collect (available : stations) (elems : list json)
    : stations * option flow_exn :=
  match elems with
  | [] => (available, None)
  | JObj launch :: rest =>
      let short_name := get launch "shortName" in
      let title := get launch "title" in
      if truthy short_name && truthy title then
        if hashable short_name then
          if contains short_name available then collect available rest
          else collect (available ++ [(short_name, title)])%list rest
        else (available, Some TypeError_unhashable)
      else collect available rest
  | _ :: _ => (available, Some (Interpreter (AttributeError "get")))
  end.

(** The body of the try block (lines 40 to 56): the stations after it and
    either the exception that leaves the block or the value of
    [errors.get("base")].  [r] is what the calls before the loop produce:
    one of them raised, or the body was decoded. *)
Definition fetch_stations (available : stations) (r : response)
    : stations * result flow_exn (option string) :=
  match r with
  | Raised err => (available, Raise (Interpreter err))
  | Body data =>
      match iter data with
      | Raise err => (available, Raise (Interpreter err))
      | Ok elems =>
          match collect available elems with
          | (available', Some err) => (available', Raise err)
          | (available', None) =>
              (available',
               Ok (if Nat.eqb (length available') 0 then Some "no_stations_found"
                   else None))
          end
      end
  end.

(** Lines 38 to 56: the stations are fetched only while none is known. *)
Definition fetch_if_empty (available : stations) (r : response)
    : stations * result flow_exn (option string) :=
  if Nat.eqb (length available) 0 then fetch_stations available r
  else (available, Ok None).

Section labels.
(** [str(v)] for a value that is not a str, as f-strings render it. *)
Variable str_of_other : json → string.

Definition format_value (v : json) : string :=
  match v with
  | JStr s => s
  | _ => str_of_other v
  end.

(** Lines 88 to 91: the title and the data handed to the host platform's
    [async_create_entry] for the selected station. *)
Definition async_create_entry (selected : json) : string * dict :=
  ("RNLI " ++ format_value selected, [("station_short_name", selected)]).
End labels.

End ConfigFlow.

(** ** The integration's entry registry (__init__.py) *)

Module Integration.

Definition DOMAIN : string := "rnli_launches".
Definition PLATFORMS : list string := ["sensor"].

(** What the two functions can raise: what the awaited host platform call
    raised, or KeyError for a missing key. *)
Inductive registry_exn (E : Type) : Type :=
| HostRaised (err : E)
| KeyError (key : string).
Arguments HostRaised {E} err.
Arguments KeyError {E} key.

Section registry.
(** [V] is the type of [entry.data], [E] of the host platform's
    exceptions.  The state is [hass.data.get(DOMAIN)]: None while hass.data
    has no such key, else the dict from entry id to entry data; the code
    touches no other key of hass.data. *)
Context {V E : Type}.

(** [async_setup_entry]: the registry after it and what it returns.
    [forward] is what awaiting [async_forward_entry_setups] raised, if it
    did; the entry is stored before that call. *)
Definition async_setup_entry (slot : option (gmap string V))
    (entry_id : string) (entry_data : V) (forward : option E)
    : option (gmap string V) * result (registry_exn E) bool :=
  let slot' := Some (<[entry_id := entry_data]> (default ∅ slot)) in
  match forward with
  | Some err => (slot', Raise (HostRaised err))
  | None => (slot', Ok true)
  end.

(** [async_unload_entry]; [unload] is the outcome of awaiting
    [async_unload_platforms]. *)
Definition async_unload_entry (slot : option (gmap string V))
    (entry_id : string) (unload : result E bool)
    : option (gmap string V) * result (registry_exn E) bool :=
  match unload with
  | Raise err => (slot, Raise (HostRaised err))
  | Ok false => (slot, Ok false)
  | Ok true =>
      match slot with
      | None => (slot, Raise (KeyError DOMAIN))
      | Some entries =>
          match entries !! entry_id with
          | None => (slot, Raise (KeyError entry_id))
          | Some _ => (Some (delete entry_id entries), Ok true)
          end
      end
  end.
End registry.

End Integration.

(** ** Further vocabulary *)

Module Words.

(** The character [c] occurs in [s]. *)
Fixpoint occurs (c : ascii) (s : string) : bool :=
  match s with
  | EmptyString => false
  | String c' s' => Ascii.eqb c' c || occurs c s'
  end.

(** The keys of a station list are pairwise different under [==]. *)
Definition distinct_keys (d : ConfigFlow.stations) : Prop :=
  ForallOrdPairs (λ p q, py_eq p.1 q.1 = false) d.

(** An entry a station list may hold: a key that is true and can be
    hashed, with a title that is true. *)
Definition station_entry (p : json * json) : Prop :=
  truthy p.1 = true ∧ hashable p.1 = true ∧ truthy p.2 = true.

(** Records with a numeric name, with a second title for station ABC, and
    of station XYZ with a title. *)
Definition numbered : dict := [("shortName", JNum 7); ("title", JStr "Seven")].
Definition renamed : dict :=
  [("shortName", JStr "ABC"); ("title", JStr "Another Title")].
Definition titled_xyz : dict := xyz [("title", JStr "X Station")].

End Words.
Export Words.

(** ** The order Python compares strings by *)

Section string_order.
Implicit Types s t u : string.

Lemma string_compare_refl s : String.compare s s = Eq.
Proof. by apply OrderedTypeEx.String_as_OT.cmp_eq. Qed.

Lemma string_ltb_irrefl s : String.ltb s s = false.
Proof. unfold String.ltb. by rewrite string_compare_refl. Qed.

Lemma string_ltb_leb s t : String.ltb s t = true → String.leb s t = true.
Proof. unfold String.ltb, String.leb. by destruct (String.compare s t). Qed.

Lemma string_ltb_false_leb s t : String.ltb s t = false → String.leb t s = true.
Proof.
  unfold String.ltb, String.leb. rewrite (String.compare_antisym s t).
  by destruct (String.compare t s).
Qed.

Lemma string_leb_cases s t :
  String.leb s t = true ↔ s = t ∨ OrderedTypeEx.String_as_OT.lt s t.
Proof.
  unfold String.leb. split.
  - destruct (String.compare s t) eqn:E; intros H; try done.
    + left. by apply String.compare_eq_iff.
    + right. by apply OrderedTypeEx.String_as_OT.cmp_lt.
  - intros [->|H].
    + by rewrite string_compare_refl.
    + apply OrderedTypeEx.String_as_OT.cmp_lt in H.
      unfold OrderedTypeEx.String_as_OT.cmp in H. by rewrite H.
Qed.

Lemma string_leb_trans s t u :
  String.leb s t = true → String.leb t u = true → String.leb s u = true.
Proof.
  rewrite !string_leb_cases. intros [->|H1] [->|H2]; auto.
  right. eapply OrderedTypeEx.String_as_OT.lt_trans; eauto.
Qed.
End string_order.

(** ** The sort on string keys *)

Section sort_facts.
Context {A : Type}.
Implicit Types (l s : list (json * A)) (d : string) (x : A).
Local Open Scope list_scope.

Lemma with_key_cons {B} (key : B → json) d (y : B) (m : list B) :
  with_key key d (y :: m) =
    if String.eqb (key_text (key y)) d then y :: with_key key d m
    else with_key key d m.
Proof. done. Qed.

Lemma with_key_app {B} (key : B → json) d (m1 m2 : list B) :
  with_key key d (m1 ++ m2) = with_key key d m1 ++ with_key key d m2.
Proof. apply List.filter_app. Qed.

Lemma with_key_above d l :
  Forall (λ p, String.ltb d (key_text p.1) = true) l → with_key fst d l = [].
Proof.
  induction 1 as [|p l Hp _ IH]; [done|]. rewrite with_key_cons, IH.
  destruct (String.eqb_spec (key_text p.1) d) as [E|]; [|done].
  rewrite E, string_ltb_irrefl in Hp. done.
Qed.

Lemma insert_reverse_split d x l :
  str_keyed fst l →
  ∃ l1 l2, insert_reverse (JStr d) x l = Ok (l1 ++ (JStr d, x) :: l2)
    ∧ l = l1 ++ l2
    ∧ Forall (λ p, String.ltb d (key_text p.1) = true) l1
    ∧ (∀ p, head l2 = Some p → String.ltb d (key_text p.1) = false).
Proof.
  induction 1 as [|[ky y] l [k Hk] Hl IH]; simpl in *.
  - exists [], []. by repeat split.
  - subst ky. simpl. destruct (String.ltb d k) eqn:E.
    + destruct IH as (l1 & l2 & -> & -> & H1 & H2). simpl.
      exists ((JStr k, y) :: l1), l2. repeat split; auto.
    + exists [], ((JStr k, y) :: l). repeat split; auto.
      intros p [= <-]. done.
Qed.

Lemma sort_decorated_spec l :
  str_keyed fst l →
  ∃ s, sort_decorated l = Ok s
    ∧ s ≡ₚ l
    ∧ StronglySorted (descending_by fst) s
    ∧ ∀ d, with_key fst d s = with_key fst d l.
Proof.
  induction 1 as [|[kx x] l [d Hd] Hl IH]; simpl in *.
  - exists []. repeat split; auto. constructor.
  - subst kx. destruct IH as (s & -> & Hperm & Hsorted & Hkeyed). simpl.
    assert (str_keyed fst s) as Hs.
    { unfold str_keyed. by rewrite Hperm. }
    destruct (insert_reverse_split d x s Hs) as (l1 & l2 & -> & -> & H1 & H2).
    eexists. split; [done|]. split; [|split].
    + rewrite <- Hperm. symmetry. apply Permutation_middle.
    + apply StronglySorted_app in Hsorted as (H12 & S1 & S2).
      apply StronglySorted_app. split; [|split; [done|]].
      * intros p q Hp Hq. apply elem_of_cons in Hq as [->|Hq]; [|by auto].
        unfold descending_by. simpl. apply string_ltb_leb.
        by apply (proj1 (Forall_forall _ _) H1).
      * constructor; [done|].
        destruct l2 as [|q l2]; [constructor|].
        assert (String.leb (key_text q.1) d = true) as Hq
          by (apply string_ltb_false_leb, H2; done).
        apply StronglySorted_inv in S2 as [_ Hall].
        constructor; [done|].
        eapply Forall_impl; [exact Hall|]. intros r Hr.
        unfold descending_by in *. simpl.
        eapply string_leb_trans; eauto.
    + intros d'. rewrite <- Hkeyed, !with_key_app, !with_key_cons. simpl.
      destruct (String.eqb_spec d d') as [<-|]; [|done].
      by rewrite (with_key_above d l1).
Qed.

Context (key : A → json).

Lemma undecorate_sorted s :
  Forall (λ p, p.1 = key p.2) s →
  StronglySorted (descending_by fst) s → StronglySorted (descending_by key) (s.*2).
Proof.
  intros Hdec. induction 1 as [|p s Hs IH Hall]; simpl; [constructor|].
  apply Forall_cons in Hdec as [Hp Hdec]. constructor; [by apply IH|].
  apply Forall_fmap. rewrite Forall_forall in Hall, Hdec |- *.
  intros q Hq. specialize (Hall q Hq). specialize (Hdec q Hq).
  unfold descending_by in *. simpl. by rewrite <- Hp, <- Hdec.
Qed.

Lemma undecorate_with_key d s :
  Forall (λ p, p.1 = key p.2) s →
  (with_key fst d s).*2 = with_key key d (s.*2).
Proof.
  induction 1 as [|p s Hp _ IH]; [done|].
  rewrite fmap_cons, !with_key_cons, <- Hp, <- IH.
  by destruct (String.eqb (key_text p.1) d).
Qed.

Lemma sort_reverse_spec (l : list A) :
  str_keyed key l →
  ∃ out, sort_reverse key l = Ok out
    ∧ out ≡ₚ l
    ∧ StronglySorted (descending_by key) out
    ∧ ∀ d, with_key key d out = with_key key d l.
Proof.
  intros Hstr. unfold sort_reverse.
  set (decorate := λ x : A, (key x, x)).
  assert (Forall (λ p, p.1 = key p.2) (decorate <$> l)) as Hdec.
  { apply Forall_fmap, Forall_forall. done. }
  destruct (sort_decorated_spec (decorate <$> l)) as (s & Hs & Hperm & Hsorted & Hkeyed).
  { apply Forall_fmap. eapply Forall_impl; [exact Hstr|]. done. }
  change (map decorate l) with (decorate <$> l). rewrite Hs. simpl.
  assert ((decorate <$> l).*2 = l) as Hl.
  { rewrite <- list_fmap_compose. apply list_fmap_id. }
  rewrite <- Hperm in Hdec.
  exists (s.*2). split; [done|]. split; [|split].
  - by rewrite Hperm, Hl.
  - by apply undecorate_sorted.
  - intros d. rewrite <- undecorate_with_key, Hkeyed by done.
    rewrite undecorate_with_key, Hl; [done|]. by rewrite <- Hperm.
Qed.
End sort_facts.

(** ** The filter *)

Section filter_facts.
Implicit Types (s : string) (x : dict) (recs out : list dict).
Local Open Scope list_scope.

Lemma has_station_eq s x :
  py_eq (get x "shortName") (JStr s) = has_station s x.
Proof. unfold has_station. by destruct (get x "shortName"). Qed.

Lemma has_station_spec s x :
  has_station s x = true ↔ get x "shortName" = JStr s.
Proof.
  unfold has_station. destruct (get x "shortName") as [| | |t| |]; try by split.
  rewrite String.eqb_eq. split; congruence.
Qed.

Lemma get_default_missing x k dflt :
  has_key x k = false → get_default x k dflt = dflt.
Proof.
  induction x as [|[k' v] x IH]; simpl; [done|].
  destruct (String.eqb k' k); simpl; [done|exact IH].
Qed.

Lemma has_station_missing s x :
  has_key x "shortName" = false → has_station s x = false.
Proof.
  intros H. unfold has_station, get. by rewrite get_default_missing.
Qed.

Lemma comprehension_objects s recs :
  comprehension s (JObj <$> recs) = Ok (List.filter (has_station s) recs).
Proof.
  induction recs as [|x recs IH]; [done|].
  rewrite fmap_cons. cbn [comprehension]. rewrite IH. simpl.
  by rewrite has_station_eq.
Qed.

Lemma comprehension_selected s elems out :
  comprehension s elems = Ok out → Forall (λ x, has_station s x = true) out.
Proof.
  revert out. induction elems as [|e elems IH]; simpl; intros out H.
  - injection H as <-. constructor.
  - destruct e as [| | | | |x]; try discriminate.
    destruct (comprehension s elems) as [out'|]; simpl in H; [|discriminate].
    rewrite has_station_eq in H. injection H as <-.
    destruct (has_station s x) eqn:E; auto.
Qed.

Lemma sort_reverse_elements {A} (key : A → json) (l out : list A) :
  sort_reverse key l = Ok out → out ≡ₚ l.
Proof.
  unfold sort_reverse.
  assert (∀ (l s : list (json * A)), sort_decorated l = Ok s → s ≡ₚ l) as Hs.
  { assert (∀ k a (l s : list (json * A)),
              insert_reverse k a l = Ok s → s ≡ₚ (k, a) :: l) as Hi.
    { intros k a. induction l0 as [|[ky y] l0 IH]; simpl; intros s0 H.
      - by injection H as <-.
      - destruct (py_lt k ky) as [[]|]; [|by injection H as <-|done].
        destruct (insert_reverse k a l0) as [s1|]; simpl in H; [|done].
        injection H as <-. rewrite (IH s1 eq_refl). apply perm_swap. }
    induction l0 as [|[k a] l0 IH]; simpl; intros s0 H.
    - by injection H as <-.
    - destruct (sort_decorated l0) as [s1|]; simpl in H; [|done].
      rewrite (Hi _ _ _ _ H). by rewrite (IH s1 eq_refl). }
  destruct (sort_decorated _) as [s|] eqn:E; simpl; [|done].
  intros [= <-]. rewrite (Hs _ _ E).
  rewrite <- list_fmap_compose. by rewrite list_fmap_id.
Qed.

Lemma insert_reverse_raises {A} k (a : A) (l : list (json * A)) e :
  insert_reverse k a l = Raise e → e = TypeError_lt.
Proof.
  induction l as [|[ky y] l IH]; simpl; [done|].
  destruct (py_lt k ky) as [[]|]; [|done|congruence].
  destruct (insert_reverse k a l); simpl; [done|].
  intros [= <-]. by apply IH.
Qed.

Lemma sort_reverse_raises {A} (key : A → json) (l : list A) e :
  sort_reverse key l = Raise e → e = TypeError_lt.
Proof.
  unfold sort_reverse.
  assert (∀ l : list (json * A), sort_decorated l = Raise e → e = TypeError_lt) as Hs.
  { induction l0 as [|[k a] l0 IH]; simpl; [done|].
    destruct (sort_decorated l0) as [s1|]; simpl.
    - apply insert_reverse_raises.
    - intros [= <-]. by apply IH. }
  destruct (sort_decorated _) as [s|] eqn:E; simpl; [done|].
  intros [= <-]. by apply Hs in E.
Qed.

Lemma comprehension_raises s elems e :
  comprehension s elems = Raise e → e = AttributeError "get".
Proof.
  induction elems as [|x elems IH]; simpl; [done|].
  destruct x; try congruence.
  destruct (comprehension s elems); simpl; [done|].
  intros [= <-]. by apply IH.
Qed.

Lemma filter_sort_raises s data e :
  filter_sort s data = Raise e →
  e ∈ [TypeError_not_iterable; AttributeError "get"; TypeError_lt].
Proof.
  unfold filter_sort. destruct (iter data) as [elems|e1] eqn:E1; simpl.
  - destruct (comprehension s elems) as [l|e2] eqn:E2; simpl.
    + intros H. apply sort_reverse_raises in H as ->. set_solver.
    + intros [= <-]. apply comprehension_raises in E2 as ->. set_solver.
  - intros [= <-]. destruct data; simpl in E1; try discriminate;
      injection E1 as <-; set_solver.
Qed.

Lemma filter_sort_selected s data out :
  filter_sort s data = Ok out → Forall (λ x, has_station s x = true) out.
Proof.
  unfold filter_sort. destruct (iter data) as [elems|]; simpl; [|done].
  destruct (comprehension s elems) as [l|] eqn:E; simpl; [|done].
  intros H. rewrite (sort_reverse_elements _ _ _ H).
  by eapply comprehension_selected.
Qed.

Lemma update_ok_filter_sort s r out :
  _async_update_data s r = Ok out → ∃ data, r = Body data ∧ filter_sort s data = Ok out.
Proof.
  unfold _async_update_data. destruct r as [err|data]; simpl.
  - by destruct (isinstance_ClientError err).
  - destruct (filter_sort s data) as [l|e] eqn:E; simpl.
    + intros [= <-]. by exists data.
    + by destruct (isinstance_ClientError e).
Qed.

Lemma update_of_filter_sort s data out :
  filter_sort s data = Ok out → _async_update_data s (Body data) = Ok out.
Proof. unfold _async_update_data. simpl. by intros ->. Qed.
End filter_facts.

(** ** The update step: what it returns and how it fails *)

(** C1, as amended.  For every list of launch records and every station
    short name [s] such that the launchDate of each record of station [s]
    is absent or a string, the filter/sort step returns: its result holds
    exactly the records whose shortName is the string [s], as often as the
    input has them; it is ordered by launchDate descending, an absent
    launchDate counting as the empty string; and for each date the records
    with that date are in the order the input has them. *)
Theorem filter_sort_str_dated (s : string) (recs : list dict) :
  Forall (λ x, has_station s x = true → str_dated x) recs →
  ∃ out,
    filter_sort s (JArr (JObj <$> recs)) = Ok out
    ∧ _async_update_data s (Body (JArr (JObj <$> recs))) = Ok out
    ∧ out ≡ₚ List.filter (has_station s) recs
    ∧ (∀ x, x ∈ out ↔ x ∈ recs ∧ get x "shortName" = JStr s)
    ∧ StronglySorted descending out
    ∧ ∀ d, dated d out = dated d (List.filter (has_station s) recs).
Proof.
  intros Hstr.
  destruct (sort_reverse_spec launchDate_key (List.filter (has_station s) recs))
    as (out & Hout & Hperm & Hsorted & Hdated).
  { apply Forall_forall. intros x Hx.
    apply list_elem_of_In, List.filter_In in Hx as [Hx Hs].
    apply list_elem_of_In in Hx.
    exact (proj1 (Forall_forall _ _) Hstr x Hx Hs). }
  assert (filter_sort s (JArr (JObj <$> recs)) = Ok out) as Hfs.
  { unfold filter_sort. simpl. by rewrite comprehension_objects. }
  exists out. split; [done|]. split; [by apply update_of_filter_sort|].
  split; [done|]. split; [|done].
  intros x. rewrite Hperm, list_elem_of_In, List.filter_In.
  by rewrite has_station_spec, <- list_elem_of_In.
Qed.

Lemma filter_sort_str_dated_witness :
  Forall (λ x, has_station "ABC" x = true → str_dated x)
    [jan; undated; unnamed; feb; xyz []]
  ∧ ∃ out,
      filter_sort "ABC" (JArr (JObj <$> [jan; undated; unnamed; feb; xyz []])) = Ok out
      ∧ _async_update_data "ABC"
          (Body (JArr (JObj <$> [jan; undated; unnamed; feb; xyz []]))) = Ok out
      ∧ out ≡ₚ List.filter (has_station "ABC") [jan; undated; unnamed; feb; xyz []]
      ∧ (∀ x, x ∈ out ↔
           x ∈ [jan; undated; unnamed; feb; xyz []] ∧ get x "shortName" = JStr "ABC")
      ∧ StronglySorted descending out
      ∧ ∀ d, dated d out =
             dated d (List.filter (has_station "ABC") [jan; undated; unnamed; feb; xyz []]).
Proof.
  assert (Forall (λ x, has_station "ABC" x = true → str_dated x)
            [jan; undated; unnamed; feb; xyz []]) as H.
  { repeat constructor; intros _; eexists; reflexivity. }
  split; [exact H|]. exact (filter_sort_str_dated "ABC" _ H).
Defined.

(** C1, the claim as stated fails: a record of the station whose launchDate
    is null makes the comparison of the sort raise, and the update step
    fails instead of returning the station's records. *)
Lemma filter_sort_null_launchDate_raises :
  filter_sort "ABC" (JArr [JObj null_dated; JObj feb]) = Raise TypeError_lt
  ∧ _async_update_data "ABC" (Body (JArr [JObj null_dated; JObj feb]))
    = Raise (UpdateFailed_from parsing_prefix TypeError_lt).
Proof. split; reflexivity. Qed.

(** What the sort does on the input of the witness: the undated record
    comes last. *)
Example filter_sort_undated_last :
  filter_sort "ABC" (JArr (JObj <$> [jan; undated; unnamed; feb; xyz []]))
  = Ok [feb; jan; undated].
Proof. reflexivity. Qed.

(** C9.  A record that lacks the shortName key is never selected: its
    station reads as null, which equals no station string (empty or not);
    the filter returns on every list of records and its result, like every
    result of the update step, leaves such a record out. *)
Theorem missing_shortName_never_selected (s : string) (x : dict) :
  has_key x "shortName" = false →
  get x "shortName" = JNull
  ∧ py_eq (get x "shortName") (JStr s) = false
  ∧ (∀ recs, ∃ out, comprehension s (JObj <$> recs) = Ok out ∧ x ∉ out)
  ∧ (∀ r out, _async_update_data s r = Ok out → x ∉ out).
Proof.
  intros Hx. pose proof (has_station_missing s x Hx) as Hs.
  split; [by apply get_default_missing|].
  split; [by rewrite has_station_eq|]. split.
  - intros recs. eexists. split; [apply comprehension_objects|].
    rewrite list_elem_of_In, List.filter_In. intros [_ H]. congruence.
  - intros r out Hr Hin.
    apply update_ok_filter_sort in Hr as (data & _ & Hr).
    apply filter_sort_selected in Hr.
    pose proof (proj1 (Forall_forall _ _) Hr x Hin). congruence.
Qed.

Lemma missing_shortName_never_selected_witness :
  has_key unnamed "shortName" = false
  ∧ get unnamed "shortName" = JNull
  ∧ py_eq (get unnamed "shortName") (JStr "ABC") = false
  ∧ (∀ recs, ∃ out, comprehension "ABC" (JObj <$> recs) = Ok out ∧ unnamed ∉ out)
  ∧ (∀ r out, _async_update_data "ABC" r = Ok out → unnamed ∉ out).
Proof.
  split; [reflexivity|].
  apply (missing_shortName_never_selected "ABC" unnamed). reflexivity.
Defined.

(** C3, as amended.  A failed update is reported as UpdateFailed by one of
    two handlers.  Whatever the awaited calls raise is reported with its
    cause: by the first handler, under the prefix "Error fetching data from
    RNLI API: ", when it is an aiohttp client error (connection failures
    and HTTP status errors alike), by the second, under "Unknown error
    parsing RNLI API data: ", otherwise (the timeout and a body that is not
    valid JSON alike).  A decoded body fails only where iterating it,
    calling [get] on one of its elements or comparing two launch dates
    raises, and then by the second handler. *)
Theorem update_failure_report (s : string) :
  (∀ err, _async_update_data s (Raised err)
          = Raise (UpdateFailed_from
                     (if isinstance_ClientError err then fetching_prefix
                      else parsing_prefix) err))
  ∧ (∀ text code,
       _async_update_data s (Raised (ClientConnectionError text))
       = Raise (UpdateFailed_from fetching_prefix (ClientConnectionError text))
       ∧ _async_update_data s (Raised (ClientResponseError code))
         = Raise (UpdateFailed_from fetching_prefix (ClientResponseError code))
       ∧ _async_update_data s (Raised TimeoutError)
         = Raise (UpdateFailed_from parsing_prefix TimeoutError)
       ∧ _async_update_data s (Raised (JSONDecodeError text))
         = Raise (UpdateFailed_from parsing_prefix (JSONDecodeError text)))
  ∧ fetching_prefix ≠ parsing_prefix
  ∧ (∀ data, (∃ out, _async_update_data s (Body data) = Ok out)
             ∨ (∃ err, _async_update_data s (Body data)
                       = Raise (UpdateFailed_from parsing_prefix err)
                  ∧ err ∈ [TypeError_not_iterable; AttributeError "get"; TypeError_lt])).
Proof.
  split; [|split; [|split]].
  - intros err. unfold _async_update_data. simpl.
    by destruct (isinstance_ClientError err).
  - intros text code. by repeat split.
  - discriminate.
  - intros data. unfold _async_update_data. simpl.
    destruct (filter_sort s data) as [out|err] eqn:E; simpl; [left; eauto|right].
    pose proof (filter_sort_raises _ _ _ E) as Herr.
    exists err. split; [|done].
    apply list_elem_of_In in Herr. simpl in Herr.
    destruct Herr as [<-|[<-|[<-|[]]]]; done.
Qed.

(** C3, the claim as stated fails: a body that is not an array of objects
    need not make the attempt fail.  An empty JSON object is iterated like
    an empty list and the update step returns no launches. *)
Lemma empty_object_body_is_no_error :
  _async_update_data "ABC" (Body (JObj [])) = Ok [].
Proof. reflexivity. Qed.

(** An HTTP status error and a connection failure reach the same handler,
    as do the timeout and a body that is not valid JSON. *)
Example status_reported_like_transport :
  (∀ u1 u2,
     _async_update_data "ABC" (Raised (ClientResponseError 503)) = Raise u1 →
     _async_update_data "ABC" (Raised (ClientConnectionError "refused")) = Raise u2 →
     message_prefix_of u1 = message_prefix_of u2)
  ∧ (∀ u1 u2,
     _async_update_data "ABC" (Raised TimeoutError) = Raise u1 →
     _async_update_data "ABC" (Raised (JSONDecodeError "Expecting value")) = Raise u2 →
     message_prefix_of u1 = message_prefix_of u2).
Proof. split; intros u1 u2 [= <-] [= <-]; reflexivity. Qed.

(** ** The cache *)

(** C4.  Whatever the cache holds and however a refresh attempt ends:
    when the attempt fails (the awaited calls raise, or the body makes the
    filter or the sort raise), the refresh returns an entry with the data
    it had and the error as lastError; when a later attempt succeeds, the
    refresh returns an entry without error whose data is the whole new
    result, whatever was there before.  [refresh_now] and [get_cached] are
    total: the failure reaches the caller through lastError only. *)
Theorem refresh_failure_then_success
    (s : string) (t1 t2 : N) (c : CacheEntry) (r1 r2 : response)
    (u : UpdateFailed) (out : list dict) :
  _async_update_data s r1 = Raise u →
  _async_update_data s r2 = Ok out →
  let c1 := refresh_now s t1 c r1 in
  let c2 := refresh_now s t2 c1 r2 in
  data (get_cached c1) = data c
  ∧ lastError (get_cached c1) = Some u
  ∧ lastSuccessTime (get_cached c1) = lastSuccessTime c
  ∧ data (get_cached c2) = out
  ∧ lastError (get_cached c2) = None
  ∧ c2 = refresh_now s t2 c r2.
Proof.
  intros H1 H2. unfold refresh_now, get_cached. rewrite H1, H2. simpl.
  by repeat split.
Qed.

Lemma refresh_failure_then_success_witness :
  _async_update_data "ABC" (Raised TimeoutError)
  = Raise (UpdateFailed_from parsing_prefix TimeoutError)
  ∧ _async_update_data "ABC" (example_body []) = Ok [feb; jan]
  ∧ let c := {| data := [jan]; lastSuccessTime := Some 10%N; lastError := None |} in
    let c1 := refresh_now "ABC" 20 c (Raised TimeoutError) in
    let c2 := refresh_now "ABC" 30 c1 (example_body []) in
    data (get_cached c1) = data c
    ∧ lastError (get_cached c1) = Some (UpdateFailed_from parsing_prefix TimeoutError)
    ∧ lastSuccessTime (get_cached c1) = lastSuccessTime c
    ∧ data (get_cached c2) = [feb; jan]
    ∧ lastError (get_cached c2) = None
    ∧ c2 = refresh_now "ABC" 30 c (example_body []).
Proof.
  split; [reflexivity|]. split; [reflexivity|].
  apply (refresh_failure_then_success "ABC" 20 30
           {| data := [jan]; lastSuccessTime := Some 10%N; lastError := None |}
           (Raised TimeoutError) (example_body [])); reflexivity.
Defined.

(** Every attempt ends in one of the two ways of C4. *)
Lemma refresh_now_cases (s : string) (now : N) (c : CacheEntry) (r : response) :
  (∃ out, _async_update_data s r = Ok out
          ∧ refresh_now s now c r
            = {| data := out; lastSuccessTime := Some now; lastError := None |})
  ∨ (∃ u, _async_update_data s r = Raise u
          ∧ refresh_now s now c r
            = {| data := data c; lastSuccessTime := lastSuccessTime c;
                 lastError := Some u |}).
Proof.
  unfold refresh_now. destruct (_async_update_data s r); [left|right]; eauto.
Qed.

(** ** The sensor *)

Section attribute_facts.
Implicit Types (m : gmap string json) (x : dict) (k : string) (v : json).

Lemma has_key_false x k : has_key x k = false ↔ k ∉ x.*1.
Proof.
  induction x as [|[k' v] x IH]; simpl.
  - split; [intros _; apply not_elem_of_nil|done].
  - rewrite not_elem_of_cons, <- IH, orb_false_iff, String.eqb_neq.
    split; intros [??]; split; auto.
Qed.

Lemma copy_items_absent m x k :
  has_key x k = false → foldl copy_item m x !! k = m !! k.
Proof.
  revert m. induction x as [|[k' v] x IH]; simpl; intros m H; [done|].
  apply orb_false_iff in H as [Hk Hx]. apply String.eqb_neq in Hk.
  rewrite IH by done. unfold copy_item. case_bool_decide; [done|].
  by rewrite lookup_insert_ne.
Qed.

Lemma copy_items_present m x k :
  is_Some (m !! k) → is_Some (foldl copy_item m x !! k).
Proof.
  revert m. induction x as [|[k' v] x IH]; simpl; intros m H; [done|].
  apply IH. unfold copy_item. case_bool_decide; [done|].
  destruct (decide (k' = k)) as [->|].
  - rewrite lookup_insert_eq. eauto.
  - by rewrite lookup_insert_ne.
Qed.

Lemma copy_items_copied m x k v :
  dict_wf x → (k, v) ∈ x → k ∉ skipped_keys →
  foldl copy_item m x !! k = Some v.
Proof.
  unfold dict_wf. revert m.
  induction x as [|[k' v'] x IH]; simpl; intros m Hwf Hin Hk.
  - by apply elem_of_nil in Hin.
  - apply NoDup_cons in Hwf as [Hk' Hwf].
    apply elem_of_cons in Hin as [[= -> ->]|Hin].
    + rewrite copy_items_absent by (by apply has_key_false).
      unfold copy_item. rewrite bool_decide_eq_false_2 by done.
      apply lookup_insert_eq.
    + by apply IH.
Qed.
End attribute_facts.

Section sensor_facts.
Import Datetime.
Implicit Types (parse : string → option datetime) (s : string) (x : dict).

(** The attributes never raise, and [state] returns whenever the latest
    launch has a string for its date, parseable or not. *)
Lemma state_str_dated parse x rest d :
  get x "launchDate" = JStr d →
  state parse (Some (x :: rest))
  = Ok (match parse d with Some dt => isoformat dt | None => "unknown" end).
Proof. intros H. unfold state. rewrite H. simpl. by destruct (parse d). Qed.

Lemma state_not_str_dated parse x rest :
  (∀ d, get x "launchDate" ≠ JStr d) →
  state parse (Some (x :: rest)) = Raise TypeError_fromisoformat.
Proof.
  intros H. unfold state. destruct (get x "launchDate") eqn:E; try done.
  by destruct (H s).
Qed.
End sensor_facts.

(** C2, the failing input.  With a latest launch that has no launchDate,
    [fromisoformat] is handed None and raises TypeError, which the handler
    for ValueError of [state] does not catch: [state] raises instead of
    returning "unknown".  The update step does deliver such a record, and
    a malformed date string does degrade to "unknown". *)
Theorem state_raises_without_launchDate (parse : string → option Datetime.datetime) :
  _async_update_data "ABC" (Body (JArr [JObj undated])) = Ok [undated]
  ∧ state parse (Some [undated]) = Raise TypeError_fromisoformat
  ∧ state Datetime.fromisoformat
      (Some [[("shortName", JStr "ABC"); ("launchDate", JStr "yesterday")]])
    = Ok "unknown".
Proof. repeat split. Qed.

(** C5.  With no data, be it the empty list or None, the state is
    "unknown" and the attributes are exactly the attribution, the station
    and the note that no launch was found: none of the per-launch names is
    present. *)
Theorem render_without_launches
    (parse : string → option Datetime.datetime) (s : string) :
  state parse (Some []) = Ok "unknown"
  ∧ state parse None = Ok "unknown"
  ∧ extra_state_attributes s (Some [])
    = {[ ATTR_ATTRIBUTION := JStr ATTRIBUTION;
         "station_monitored" := JStr s;
         "last_launch_info" := JStr "No recent launches found for this station." ]}
  ∧ extra_state_attributes s None = extra_state_attributes s (Some [])
  ∧ dom (extra_state_attributes s (Some []))
    = ({[ ATTR_ATTRIBUTION; "station_monitored"; "last_launch_info" ]} : gset string)
  ∧ extra_state_attributes s (Some []) !! "launch_id" = None
  ∧ extra_state_attributes s (Some []) !! "lifeboat_id" = None
  ∧ extra_state_attributes s (Some []) !! "station_title" = None
  ∧ extra_state_attributes s (Some []) !! "station_website" = None.
Proof. repeat split. Qed.

(** C6, as amended.  With a latest launch [x], a dict: every item of [x]
    whose key is not one of id, lifeboat_IdNo, title, website, shortName,
    launchDate is an attribute, value unchanged; and each of the attribution,
    the station, and the launch's id, lifeboat id, title and website (null
    where [x] lacks the field) is the attribute of its fixed name unless [x]
    itself has a key of that name. *)
Theorem attributes_of_latest_launch (s : string) (x : dict) (rest : list dict) :
  dict_wf x →
  let attrs := extra_state_attributes s (Some (x :: rest)) in
  (∀ k v, (k, v) ∈ x → k ∉ skipped_keys → attrs !! k = Some v)
  ∧ (has_key x ATTR_ATTRIBUTION = false →
     attrs !! ATTR_ATTRIBUTION = Some (JStr ATTRIBUTION))
  ∧ (has_key x "station_monitored" = false →
     attrs !! "station_monitored" = Some (JStr s))
  ∧ (has_key x "launch_id" = false → attrs !! "launch_id" = Some (get x "id"))
  ∧ (has_key x "lifeboat_id" = false →
     attrs !! "lifeboat_id" = Some (get x "lifeboat_IdNo"))
  ∧ (has_key x "station_title" = false →
     attrs !! "station_title" = Some (get x "title"))
  ∧ (has_key x "station_website" = false →
     attrs !! "station_website" = Some (get x "website")).
Proof.
  intros Hwf attrs. subst attrs. unfold extra_state_attributes.
  split; [intros k v Hin Hk; by apply copy_items_copied|].
  repeat split; intros H; rewrite copy_items_absent by done; reflexivity.
Qed.

Lemma attributes_of_latest_launch_witness :
  dict_wf with_extras
  ∧ let attrs := extra_state_attributes "ABC" (Some [with_extras; jan]) in
    (∀ k v, (k, v) ∈ with_extras → k ∉ skipped_keys → attrs !! k = Some v)
    ∧ (has_key with_extras ATTR_ATTRIBUTION = false →
       attrs !! ATTR_ATTRIBUTION = Some (JStr ATTRIBUTION))
    ∧ (has_key with_extras "station_monitored" = false →
       attrs !! "station_monitored" = Some (JStr "ABC"))
    ∧ (has_key with_extras "launch_id" = false →
       attrs !! "launch_id" = Some (get with_extras "id"))
    ∧ (has_key with_extras "lifeboat_id" = false →
       attrs !! "lifeboat_id" = Some (get with_extras "lifeboat_IdNo"))
    ∧ (has_key with_extras "station_title" = false →
       attrs !! "station_title" = Some (get with_extras "title"))
    ∧ (has_key with_extras "station_website" = false →
       attrs !! "station_website" = Some (get with_extras "website")).
Proof.
  assert (dict_wf with_extras) as H.
  { unfold dict_wf. compute_done. }
  split; [exact H|]. exact (attributes_of_latest_launch "ABC" with_extras [jan] H).
Defined.

(** C6, the claim as stated fails: a latest launch with a field named
    station_monitored overwrites the configured station in the
    attributes. *)
Lemma station_attribute_overwritten :
  extra_state_attributes "ABC" (Some [renaming_station]) !! "station_monitored"
  = Some (JStr "X")
  ∧ extra_state_attributes "ABC" (Some [renaming_station]) !! "station_monitored"
    ≠ Some (JStr "ABC").
Proof. split; [reflexivity|discriminate]. Qed.

(** C10, as amended.  With a latest launch [x], the four per-launch names
    are always attributes; where [x] lacks the field a name is taken from,
    the value is null, unless [x] has a key of that very name, whose value
    is then the attribute. *)
Theorem launch_names_always_present (s : string) (x : dict) (rest : list dict) :
  let attrs := extra_state_attributes s (Some (x :: rest)) in
  is_Some (attrs !! "launch_id")
  ∧ is_Some (attrs !! "lifeboat_id")
  ∧ is_Some (attrs !! "station_title")
  ∧ is_Some (attrs !! "station_website")
  ∧ (has_key x "id" = false → has_key x "launch_id" = false →
     attrs !! "launch_id" = Some JNull)
  ∧ (has_key x "lifeboat_IdNo" = false → has_key x "lifeboat_id" = false →
     attrs !! "lifeboat_id" = Some JNull)
  ∧ (has_key x "title" = false → has_key x "station_title" = false →
     attrs !! "station_title" = Some JNull)
  ∧ (has_key x "website" = false → has_key x "station_website" = false →
     attrs !! "station_website" = Some JNull).
Proof.
  intros attrs. subst attrs. unfold extra_state_attributes.
  repeat split;
    try (apply copy_items_present; simplify_map_eq; eauto; fail);
    intros H1 H2; rewrite copy_items_absent by done; simplify_map_eq;
    unfold get; by rewrite get_default_missing.
Qed.

(** C10, the claim as stated fails: a latest launch without id but with a
    field named launch_id shows that field's value, not null. *)
Lemma launch_id_not_null :
  has_key renaming_id "id" = false
  ∧ extra_state_attributes "ABC" (Some [renaming_id]) !! "launch_id" = Some (JStr "X").
Proof. split; reflexivity. Qed.

(** C7.  The example response, for station ABC: the update step returns
    the February record, then the January one; a refresh of the empty cache
    stores that list; the state is the ISO form of 1 February 2024, 09:00
    UTC; and launch_id is "2". *)
Theorem end_to_end_example (rest : dict) (now : N) :
  _async_update_data "ABC" (example_body rest) = Ok [feb; jan]
  ∧ data (refresh_now "ABC" now empty_cache (example_body rest)) = [feb; jan]
  ∧ lastError (refresh_now "ABC" now empty_cache (example_body rest)) = None
  ∧ state Datetime.fromisoformat (Some [feb; jan])
    = Ok (Datetime.isoformat (Datetime.mk_datetime 2024 2 1 9 0 0 0 (Some 0%Z)))
  ∧ state Datetime.fromisoformat (Some [feb; jan]) = Ok "2024-02-01T09:00:00+00:00"
  ∧ extra_state_attributes "ABC" (Some [feb; jan]) !! "launch_id" = Some (JStr "2")
  ∧ extra_state_attributes "ABC" (Some [feb; jan]) !! "station_title"
    = Some (JStr "A Station")
  ∧ extra_state_attributes "ABC" (Some [feb; jan]) !! "station_monitored"
    = Some (JStr "ABC").
Proof. repeat split. Qed.

(** ** More on the update step *)

Section update_more.
Implicit Types (s : string) (x y : dict) (recs out : list dict).
Local Open Scope list_scope.

Lemma string_leb_ltb_false s t : String.leb t s = true → String.ltb s t = false.
Proof.
  unfold String.ltb, String.leb. rewrite (String.compare_antisym s t).
  by destruct (String.compare t s).
Qed.

Lemma string_leb_empty t : String.leb t "" = true → t = "".
Proof. by destruct t. Qed.

Lemma comprehension_ok_objects s elems l :
  comprehension s elems = Ok l →
  ∃ recs, elems = JObj <$> recs ∧ l = List.filter (has_station s) recs.
Proof.
  revert l. induction elems as [|e elems IH]; simpl; intros l H.
  - injection H as <-. by exists [].
  - destruct e as [| | | | |x]; try discriminate.
    destruct (comprehension s elems) as [l'|]; simpl in H; [|discriminate].
    destruct (IH l' eq_refl) as (recs & -> & ->).
    exists (x :: recs). split; [done|]. simpl.
    rewrite has_station_eq in H. by injection H as <-.
Qed.

Lemma filter_has_station_id s l :
  Forall (λ x, has_station s x = true) l → List.filter (has_station s) l = l.
Proof. induction 1 as [|x l Hx _ IH]; simpl; [done|]. by rewrite Hx, IH. Qed.

Lemma filter_length_le {A} (f : A → bool) (l : list A) :
  (length (List.filter f l) ≤ length l)%nat.
Proof. induction l as [|a l IH]; simpl; [done|]. destruct (f a); simpl; lia. Qed.

Lemma filter_Permutation {A} (f : A → bool) (l1 l2 : list A) :
  l1 ≡ₚ l2 → List.filter f l1 ≡ₚ List.filter f l2.
Proof.
  induction 1 as [|a l1 l2 _ IH|a b l|l1 l2 l3 _ IH1 _ IH2]; simpl.
  - done.
  - destruct (f a); by rewrite IH.
  - destruct (f a), (f b); try done. apply perm_swap.
  - by rewrite IH1.
Qed.

Lemma sort_decorated_sorted {A} (l : list (json * A)) :
  str_keyed fst l → StronglySorted (descending_by fst) l → sort_decorated l = Ok l.
Proof.
  intros Hstr. induction 1 as [|[k a] l Hs IH Hall]; simpl; [done|].
  apply Forall_cons in Hstr as [[d Hd] Hstr]. simpl in Hd. subst k.
  rewrite IH by done. simpl.
  destruct l as [|[ky y] l]; simpl; [done|].
  apply Forall_cons in Hstr as [[dy Hdy] _]. simpl in Hdy. subst ky.
  apply Forall_cons in Hall as [Hy _]. unfold descending_by in Hy. simpl in Hy.
  simpl. by rewrite (string_leb_ltb_false _ _ Hy).
Qed.

Lemma sort_reverse_sorted {A} (key : A → json) (l : list A) :
  str_keyed key l → StronglySorted (descending_by key) l → sort_reverse key l = Ok l.
Proof.
  intros Hstr Hs. unfold sort_reverse.
  change (map (λ a, (key a, a)) l) with ((λ a, (key a, a)) <$> l).
  rewrite sort_decorated_sorted.
  - simpl. rewrite <- list_fmap_compose. by rewrite list_fmap_id.
  - apply Forall_fmap. eapply Forall_impl; [exact Hstr|]. done.
  - by apply (StronglySorted_fmap _ (descending_by key)).
Qed.

Lemma py_lt_null_l k : py_lt JNull k = None.
Proof. done. Qed.

Lemma py_lt_null_r k : py_lt k JNull = None.
Proof. by destruct k. Qed.

Lemma sort_decorated_length {A} (l s : list (json * A)) :
  sort_decorated l = Ok s → s ≡ₚ l.
Proof.
  assert (∀ k a (l s : list (json * A)),
            insert_reverse k a l = Ok s → s ≡ₚ (k, a) :: l) as Hi.
  { intros k a. induction l0 as [|[ky y] l0 IH]; simpl; intros s0 H.
    - by injection H as <-.
    - destruct (py_lt k ky) as [[]|]; [|by injection H as <-|done].
      destruct (insert_reverse k a l0) as [s1|]; simpl in H; [|done].
      injection H as <-. rewrite (IH s1 eq_refl). apply perm_swap. }
  revert s. induction l as [|[k a] l IH]; simpl; intros s H.
  - by injection H as <-.
  - destruct (sort_decorated l) as [s1|]; simpl in H; [|done].
    rewrite (Hi _ _ _ _ H). by rewrite (IH s1 eq_refl).
Qed.

Lemma sort_decorated_null {A} (l s : list (json * A)) :
  sort_decorated l = Ok s → JNull ∈ l.*1 → length l = 1%nat.
Proof.
  revert s. induction l as [|[k a] l IH]; simpl; intros s H Hin.
  - by apply elem_of_nil in Hin.
  - destruct (sort_decorated l) as [s1|] eqn:E; simpl in H; [|done].
    pose proof (sort_decorated_length _ _ E) as Hperm.
    apply elem_of_cons in Hin as [<-|Hin].
    + destruct s1 as [|[ky y] s1]; simpl in H; [|done].
      apply Permutation_nil_l in Hperm. by subst l.
    + pose proof (IH s1 eq_refl Hin) as Hlen.
      destruct l as [|[k1 a1] [|]]; simpl in Hlen; try done.
      apply Permutation_singleton_r in Hperm. subst s1.
      rewrite fmap_cons in Hin. apply list_elem_of_singleton in Hin. simpl in Hin.
      subst k1. simpl in H. by rewrite py_lt_null_r in H.
Qed.
End update_more.

Section update_more_facts.
Implicit Types (s : string) (x y : dict) (recs out : list dict).
Local Open Scope list_scope.

Lemma NoDup_fmap_inj_on {A B} (f : A → B) (l : list A) a b :
  NoDup (f <$> l) → a ∈ l → b ∈ l → f a = f b → a = b.
Proof.
  induction l as [|c l IH]; intros Hnd Ha Hb Hf.
  - by apply elem_of_nil in Ha.
  - rewrite fmap_cons in Hnd. apply NoDup_cons in Hnd as [Hc Hnd].
    apply elem_of_cons in Ha as [->|Ha]; apply elem_of_cons in Hb as [->|Hb]; auto.
    + destruct Hc. rewrite Hf. by apply list_elem_of_fmap_2.
    + destruct Hc. rewrite <- Hf. by apply list_elem_of_fmap_2.
Qed.

Lemma filter_sort_objects s recs :
  filter_sort s (JArr (JObj <$> recs))
  = sort_reverse launchDate_key (List.filter (has_station s) recs).
Proof. unfold filter_sort. simpl. by rewrite comprehension_objects. Qed.

Lemma update_objects s recs :
  _async_update_data s (Body (JArr (JObj <$> recs)))
  = match sort_reverse launchDate_key (List.filter (has_station s) recs) with
    | Ok out => Ok out
    | Raise err => Raise (UpdateFailed_from parsing_prefix err)
    end.
Proof.
  unfold _async_update_data. simpl. rewrite filter_sort_objects.
  destruct (sort_reverse _ _) as [out|err] eqn:E; simpl; [done|].
  by apply sort_reverse_raises in E as ->.
Qed.

Lemma selected_str_keyed s recs :
  Forall (λ x, has_station s x = true → str_dated x) recs →
  str_keyed launchDate_key (List.filter (has_station s) recs).
Proof.
  intros H. apply Forall_forall. intros x Hx.
  apply list_elem_of_In, List.filter_In in Hx as [Hx Hs].
  apply list_elem_of_In in Hx. exact (proj1 (Forall_forall _ _) H x Hx Hs).
Qed.
End update_more_facts.

(** X1.  Whatever array the endpoint sends, a successful update returns
    only objects of that array whose shortName is the station string, no
    more of them than the array has; and it succeeds only if every element
    of the array is an object. *)
Theorem update_returns_body_records (s : string) (elems : list json) (out : list dict) :
  _async_update_data s (Body (JArr elems)) = Ok out →
  (∀ x, x ∈ out → JObj x ∈ elems ∧ get x "shortName" = JStr s)
  ∧ (length out ≤ length elems)%nat
  ∧ Forall (λ e, ∃ x, e = JObj x) elems.
Proof.
  intros H. apply update_ok_filter_sort in H as (data & [= <-] & H).
  unfold filter_sort in H. simpl in H.
  destruct (comprehension s elems) as [l|] eqn:E; simpl in H; [|done].
  apply comprehension_ok_objects in E as (recs & -> & ->).
  apply sort_reverse_elements in H. split; [|split].
  - intros x Hx. rewrite H in Hx.
    apply list_elem_of_In, List.filter_In in Hx as [Hx Hs]. split.
    + apply list_elem_of_fmap_2. by apply list_elem_of_In.
    + by apply has_station_spec.
  - rewrite H, length_fmap. apply filter_length_le.
  - apply Forall_fmap, Forall_forall. intros x _. by exists x.
Qed.

Lemma update_returns_body_records_witness :
  _async_update_data "ABC" (Body (JArr [JObj jan; JObj feb; JObj (xyz [])])) = Ok [feb; jan]
  ∧ (∀ x, x ∈ [feb; jan] →
       JObj x ∈ [JObj jan; JObj feb; JObj (xyz [])] ∧ get x "shortName" = JStr "ABC")
  ∧ (length [feb; jan] ≤ length [JObj jan; JObj feb; JObj (xyz [])])%nat
  ∧ Forall (λ e, ∃ x, e = JObj x) [JObj jan; JObj feb; JObj (xyz [])].
Proof.
  split; [reflexivity|].
  apply (update_returns_body_records "ABC" [JObj jan; JObj feb; JObj (xyz [])] [feb; jan]).
  reflexivity.
Defined.

(** X2.  On records whose launch dates are absent or strings the update
    step is idempotent: given its own result as the response, it returns
    that result again. *)
Theorem update_idempotent (s : string) (recs out : list dict) :
  Forall (λ x, has_station s x = true → str_dated x) recs →
  _async_update_data s (Body (JArr (JObj <$> recs))) = Ok out →
  _async_update_data s (Body (JArr (JObj <$> out))) = Ok out.
Proof.
  intros Hstr H.
  destruct (sort_reverse_spec launchDate_key (List.filter (has_station s) recs))
    as (out' & Hout & Hperm & Hsorted & _); [by apply selected_str_keyed|].
  rewrite update_objects, Hout in H. injection H as <-.
  assert (Forall (λ x, has_station s x = true) out') as Hsel.
  { rewrite Hperm. apply Forall_forall. intros x Hx.
    by apply list_elem_of_In, List.filter_In in Hx as [_ Hx]. }
  rewrite update_objects, filter_has_station_id by done.
  rewrite sort_reverse_sorted; [done| |done].
  unfold str_keyed. rewrite Hperm. by apply selected_str_keyed.
Qed.

Lemma update_idempotent_witness :
  Forall (λ x, has_station "ABC" x = true → str_dated x) [jan; undated; feb]
  ∧ _async_update_data "ABC" (Body (JArr (JObj <$> [jan; undated; feb])))
    = Ok [feb; jan; undated]
  ∧ _async_update_data "ABC" (Body (JArr (JObj <$> [feb; jan; undated])))
    = Ok [feb; jan; undated].
Proof.
  assert (Forall (λ x, has_station "ABC" x = true → str_dated x) [jan; undated; feb]) as H.
  { repeat constructor; intros _; eexists; reflexivity. }
  split; [exact H|]. split; [reflexivity|].
  apply (update_idempotent "ABC" [jan; undated; feb] [feb; jan; undated] H).
  reflexivity.
Defined.

(** X3.  Records of other stations, and records without a station, have
    no effect on the update: dropping one from the response changes neither
    the result nor the failure. *)
Theorem update_ignores_other_stations (s : string) (l1 l2 : list dict) (y : dict) :
  has_station s y = false →
  _async_update_data s (Body (JArr (JObj <$> (l1 ++ y :: l2)%list)))
  = _async_update_data s (Body (JArr (JObj <$> (l1 ++ l2)%list))).
Proof.
  intros Hy. rewrite !update_objects, !List.filter_app. simpl. by rewrite Hy.
Qed.

Lemma update_ignores_other_stations_witness :
  has_station "ABC" (xyz []) = false
  ∧ _async_update_data "ABC" (Body (JArr (JObj <$> ([jan] ++ xyz [] :: [null_dated])%list)))
    = _async_update_data "ABC" (Body (JArr (JObj <$> ([jan] ++ [null_dated])%list))).
Proof.
  split; [reflexivity|].
  apply (update_ignores_other_stations "ABC" [jan] [null_dated] (xyz [])). reflexivity.
Defined.

(** X4.  A record of the station whose launchDate is null makes the whole
    update fail, by the handler for unknown errors, as soon as the station
    has a second record; when it is the station's only record the update
    returns it. *)
Theorem null_launchDate_fails_update (s : string) (recs : list dict) (x : dict) :
  x ∈ recs → has_station s x = true → launchDate_key x = JNull →
  _async_update_data s (Body (JArr (JObj <$> recs)))
  = if decide (length (List.filter (has_station s) recs) = 1%nat) then Ok [x]
    else Raise (UpdateFailed_from parsing_prefix TypeError_lt).
Proof.
  intros Hin Hs Hnull. rewrite update_objects.
  assert (x ∈ List.filter (has_station s) recs) as Hx.
  { apply list_elem_of_In, List.filter_In. split; [by apply list_elem_of_In|done]. }
  set (l := List.filter (has_station s) recs) in *.
  case_decide as Hlen.
  - destruct l as [|y [|]]; simpl in Hlen; try done.
    apply list_elem_of_singleton in Hx as <-. unfold sort_reverse. simpl. done.
  - destruct (sort_reverse launchDate_key l) as [out|err] eqn:E.
    + exfalso. apply Hlen. unfold sort_reverse in E.
      destruct (sort_decorated _) as [d|] eqn:Ed; simpl in E; [|done].
      apply sort_decorated_null in Ed.
      * by rewrite length_map in Ed.
      * change (map (λ a, (launchDate_key a, a)) l)
          with ((λ a, (launchDate_key a, a)) <$> l).
        rewrite <- list_fmap_compose, <- Hnull. by apply list_elem_of_fmap_2.
    + by apply sort_reverse_raises in E as ->.
Qed.

Lemma null_launchDate_fails_update_witness :
  null_dated ∈ [jan; xyz []; null_dated]
  ∧ has_station "ABC" null_dated = true
  ∧ launchDate_key null_dated = JNull
  ∧ _async_update_data "ABC" (Body (JArr (JObj <$> [jan; xyz []; null_dated])))
    = if decide (length (List.filter (has_station "ABC") [jan; xyz []; null_dated]) = 1%nat)
      then Ok [null_dated]
      else Raise (UpdateFailed_from parsing_prefix TypeError_lt).
Proof.
  assert (null_dated ∈ [jan; xyz []; null_dated]) as H by set_solver.
  split; [exact H|]. split; [reflexivity|]. split; [reflexivity|].
  apply (null_launchDate_fails_update "ABC" [jan; xyz []; null_dated] null_dated H);
    reflexivity.
Defined.

(** X5.  When the station's records have pairwise different launch dates
    (absent or strings), the result does not depend on the order in which
    the endpoint lists the records. *)
Theorem update_order_independent (s : string) (recs1 recs2 : list dict) :
  recs1 ≡ₚ recs2 →
  Forall (λ x, has_station s x = true → str_dated x) recs1 →
  NoDup (date_of <$> List.filter (has_station s) recs1) →
  _async_update_data s (Body (JArr (JObj <$> recs1)))
  = _async_update_data s (Body (JArr (JObj <$> recs2))).
Proof.
  intros Hperm Hstr Hnd.
  assert (Forall (λ x, has_station s x = true → str_dated x) recs2) as Hstr2
    by (by rewrite <- Hperm).
  pose proof (filter_Permutation (has_station s) _ _ Hperm) as Hf.
  destruct (sort_reverse_spec launchDate_key (List.filter (has_station s) recs1))
    as (out1 & Hout1 & Hp1 & Hs1 & _); [by apply selected_str_keyed|].
  destruct (sort_reverse_spec launchDate_key (List.filter (has_station s) recs2))
    as (out2 & Hout2 & Hp2 & Hs2 & _); [by apply selected_str_keyed|].
  rewrite !update_objects, Hout1, Hout2. f_equal.
  apply (StronglySorted_unique_strong (descending_by launchDate_key)); try done.
  - intros a b Ha Hb Hab Hba. rewrite Hp1 in Ha. rewrite Hp2, <- Hf in Hb.
    apply (NoDup_fmap_inj_on date_of _ _ _ Hnd Ha Hb).
    by apply String.leb_antisym.
  - by rewrite Hp1, Hp2.
Qed.

Lemma update_order_independent_witness :
  [jan; feb; xyz []; undated] ≡ₚ [feb; jan; xyz []; undated]
  ∧ Forall (λ x, has_station "ABC" x = true → str_dated x) [jan; feb; xyz []; undated]
  ∧ NoDup (date_of <$> List.filter (has_station "ABC") [jan; feb; xyz []; undated])
  ∧ _async_update_data "ABC" (Body (JArr (JObj <$> [jan; feb; xyz []; undated])))
    = _async_update_data "ABC" (Body (JArr (JObj <$> [feb; jan; xyz []; undated]))).
Proof.
  assert ([jan; feb; xyz []; undated] ≡ₚ [feb; jan; xyz []; undated]) as Hp
    by apply perm_swap.
  assert (Forall (λ x, has_station "ABC" x = true → str_dated x)
            [jan; feb; xyz []; undated]) as Hs.
  { repeat constructor; intros _; eexists; reflexivity. }
  assert (NoDup (date_of <$> List.filter (has_station "ABC") [jan; feb; xyz []; undated]))
    as Hn.
  { apply (bool_decide_unpack _). vm_compute. exact I. }
  split; [exact Hp|]. split; [exact Hs|]. split; [exact Hn|].
  exact (update_order_independent "ABC" _ _ Hp Hs Hn).
Defined.

(** ** More on the sensor *)

Section sensor_more.
Implicit Types (m : gmap string json) (x : dict) (k : string).

Lemma copy_items_skipped m x k :
  k ∈ skipped_keys → foldl copy_item m x !! k = m !! k.
Proof.
  intros Hk. revert m. induction x as [|[k' v] x IH]; simpl; intros m; [done|].
  rewrite IH. unfold copy_item. case_bool_decide as Hk'; [done|].
  rewrite lookup_insert_ne; [done|]. by intros ->.
Qed.

Lemma copy_items_dom m x :
  dom (foldl copy_item m x)
  = dom m ∪ list_to_set (base.filter (λ k, k ∉ skipped_keys) (x.*1)).
Proof.
  revert m. induction x as [|[k v] x IH]; intros m.
  - simpl. by rewrite union_empty_r_L.
  - cbn [foldl]. rewrite IH, fmap_cons. cbn [fst].
    destruct (decide (k ∈ skipped_keys)) as [Hk|Hk].
    + rewrite filter_cons_False by (by intros H; apply H).
      unfold copy_item. by rewrite bool_decide_eq_true_2.
    + rewrite filter_cons_True by done.
      unfold copy_item. rewrite bool_decide_eq_false_2 by done.
      rewrite dom_insert_L, list_to_set_cons.
      by rewrite (comm_L (∪) {[k]} (dom m)), (assoc_L (∪)).
Qed.

Lemma get_default_get x k dflt :
  get_default x k dflt = if has_key x k then get x k else dflt.
Proof.
  unfold get. induction x as [|[k' v] x IH]; simpl; [done|].
  by destruct (String.eqb k' k).
Qed.

Lemma sort_reverse_head_max {A} (key : A → json) (l : list A) (a : A) (rest : list A) :
  str_keyed key l → sort_reverse key l = Ok (a :: rest) →
  a ∈ l ∧ ∀ b, b ∈ l → String.leb (key_text (key b)) (key_text (key a)) = true.
Proof.
  intros Hstr H.
  destruct (sort_reverse_spec key l Hstr) as (out & Hout & Hperm & Hsorted & _).
  rewrite Hout in H. injection H as ->.
  split; [rewrite <- Hperm; by left|].
  intros b Hb. rewrite <- Hperm in Hb.
  apply StronglySorted_inv in Hsorted as [_ Hall].
  apply elem_of_cons in Hb as [->|Hb].
  - unfold String.leb. by rewrite string_compare_refl.
  - exact (proj1 (Forall_forall _ _) Hall b Hb).
Qed.
End sensor_more.

(** X6.  The state property raises exactly when there is a latest launch
    and its launchDate is not a string (absent, null, a number, ...), and
    then it raises the TypeError of [fromisoformat]; in every other case it
    returns "unknown" or the ISO form of the parsed date. *)
Theorem state_raises_iff
    (parse : string → option Datetime.datetime) (data : option (list dict)) :
  ((∃ err, state parse data = Raise err)
   ↔ ∃ x rest, data = Some (x :: rest) ∧ ∀ d, get x "launchDate" ≠ JStr d)
  ∧ (∀ err, state parse data = Raise err → err = TypeError_fromisoformat)
  ∧ (∀ v, state parse data = Ok v →
       v = "unknown"
       ∨ ∃ x rest d dt, data = Some (x :: rest) ∧ get x "launchDate" = JStr d
           ∧ parse d = Some dt ∧ v = Datetime.isoformat dt).
Proof.
  destruct data as [[|x rest]|]; simpl.
  1,3: split; [split; [intros [? [=]]|intros (?&?&[=]&_)]|split; [done|]];
       intros v [= <-]; by left.
  destruct (get x "launchDate") as [| | |d| |] eqn:E; simpl;
    try (split; [split; [intros _; exists x, rest; split; [done|congruence]
                        |intros _; by eexists]
                |split; [by intros err [= <-]|done]]).
  destruct (parse d) as [dt|] eqn:P; simpl.
  - split; [split; [intros [? [=]]|intros (?&?&[= <- <-]&H); by destruct (H d)]|].
    split; [done|]. intros v [= <-]. right. by exists x, rest, d, dt.
  - split; [split; [intros [? [=]]|intros (?&?&[= <- <-]&H); by destruct (H d)]|].
    split; [done|]. intros v [= <-]. by left.
Qed.

(** X7.  Whatever the data, the attributes never have one of the keys id,
    lifeboat_IdNo, title, website, shortName, launchDate: the first four
    appear under their fixed names only, the station and the date not at
    all. *)
Theorem attributes_never_source_keys (s : string) (data : option (list dict)) :
  Forall (λ k, extra_state_attributes s data !! k = None) skipped_keys.
Proof.
  apply Forall_forall. intros k Hk. unfold extra_state_attributes.
  destruct data as [[|x rest]|].
  1,3: repeat (apply elem_of_cons in Hk as [->|Hk]; [done|]);
       by apply elem_of_nil in Hk.
  rewrite copy_items_skipped by done.
  repeat (apply elem_of_cons in Hk as [->|Hk]; [done|]).
  by apply elem_of_nil in Hk.
Qed.

(** X8.  With a latest launch, the attribute names are exactly the six
    fixed names and the keys of the launch other than the six source keys:
    nothing else is ever added and none of them is left out. *)
Theorem attributes_names (s : string) (x : dict) (rest : list dict) :
  dom (extra_state_attributes s (Some (x :: rest)))
  = ({[ ATTR_ATTRIBUTION; "station_monitored"; "launch_id"; "lifeboat_id";
        "station_title"; "station_website" ]} : gset string)
    ∪ list_to_set (base.filter (λ k, k ∉ skipped_keys) (x.*1)).
Proof.
  unfold extra_state_attributes. rewrite copy_items_dom.
  rewrite !dom_insert_L, dom_empty_L. f_equal; set_solver.
Qed.

(** X9.  After an update on records whose launch dates are absent or
    strings, the first record of the result, the one the sensor shows, is a
    record of the station from the response, and no record of the station
    in the response has a later launch date. *)
Theorem latest_launch_is_most_recent
    (s : string) (recs : list dict) (x : dict) (rest : list dict) :
  Forall (λ y, has_station s y = true → str_dated y) recs →
  _async_update_data s (Body (JArr (JObj <$> recs))) = Ok (x :: rest) →
  x ∈ recs
  ∧ get x "shortName" = JStr s
  ∧ ∀ y, y ∈ recs → get y "shortName" = JStr s →
         String.leb (date_of y) (date_of x) = true.
Proof.
  intros Hstr H. rewrite update_objects in H.
  destruct (sort_reverse _ _) as [out|] eqn:E; [|done]. injection H as ->.
  apply sort_reverse_head_max in E as [Hx Hmax]; [|by apply selected_str_keyed].
  apply list_elem_of_In, List.filter_In in Hx as [Hx Hs].
  split; [by apply list_elem_of_In|]. split; [by apply has_station_spec|].
  intros y Hy Hsy. apply Hmax, list_elem_of_In, List.filter_In.
  split; [by apply list_elem_of_In|by apply has_station_spec].
Qed.

Lemma latest_launch_is_most_recent_witness :
  Forall (λ y, has_station "ABC" y = true → str_dated y) [jan; undated; feb; xyz []]
  ∧ _async_update_data "ABC" (Body (JArr (JObj <$> [jan; undated; feb; xyz []])))
    = Ok [feb; jan; undated]
  ∧ feb ∈ [jan; undated; feb; xyz []]
  ∧ get feb "shortName" = JStr "ABC"
  ∧ ∀ y, y ∈ [jan; undated; feb; xyz []] → get y "shortName" = JStr "ABC" →
         String.leb (date_of y) (date_of feb) = true.
Proof.
  assert (Forall (λ y, has_station "ABC" y = true → str_dated y)
            [jan; undated; feb; xyz []]) as H.
  { repeat constructor; intros _; eexists; reflexivity. }
  split; [exact H|]. split; [reflexivity|].
  apply (latest_launch_is_most_recent "ABC" [jan; undated; feb; xyz []] feb
           [jan; undated] H).
  reflexivity.
Defined.

(** X10.  Update and state together: when the launch dates of the
    station's records are absent or strings and at least one of them is a
    non-empty string, the update returns and the state property, read from
    its result, returns too (it does not raise). *)
Theorem state_after_update
    (parse : string → option Datetime.datetime)
    (s : string) (recs : list dict) (y : dict) :
  Forall (λ x, has_station s x = true → str_dated x) recs →
  y ∈ recs → get y "shortName" = JStr s → date_of y ≠ "" →
  ∃ out v, _async_update_data s (Body (JArr (JObj <$> recs))) = Ok out
           ∧ state parse (Some out) = Ok v.
Proof.
  intros Hstr Hy Hsy Hdate.
  pose proof (selected_str_keyed s recs Hstr) as Hkeyed.
  destruct (sort_reverse_spec launchDate_key _ Hkeyed) as (out & Hout & Hperm & _).
  assert (y ∈ List.filter (has_station s) recs) as Hin.
  { apply list_elem_of_In, List.filter_In.
    split; [by apply list_elem_of_In|by apply has_station_spec]. }
  destruct out as [|x rest].
  { rewrite <- Hperm in Hin. by apply elem_of_nil in Hin. }
  destruct (sort_reverse_head_max _ _ _ _ Hkeyed Hout) as [Hx Hmax].
  specialize (Hmax y Hin). fold (date_of y) (date_of x) in Hmax.
  assert (date_of x ≠ "") as Hdx.
  { intros E. rewrite E in Hmax. by apply string_leb_empty in Hmax. }
  destruct (proj1 (Forall_forall _ _) Hkeyed x Hx) as [d Hd].
  assert (get x "launchDate" = JStr d) as Hget.
  { unfold launchDate_key in Hd. rewrite get_default_get in Hd.
    destruct (has_key x "launchDate") eqn:Hk; [done|].
    injection Hd as <-. unfold date_of, launchDate_key in Hdx.
    rewrite get_default_get, Hk in Hdx. done. }
  exists (x :: rest). eexists. split; [by rewrite update_objects, Hout|].
  by apply state_str_dated.
Qed.

Lemma state_after_update_witness :
  Forall (λ x, has_station "ABC" x = true → str_dated x) [undated; xyz []; jan]
  ∧ jan ∈ [undated; xyz []; jan]
  ∧ get jan "shortName" = JStr "ABC"
  ∧ date_of jan ≠ ""
  ∧ ∃ out v,
      _async_update_data "ABC" (Body (JArr (JObj <$> [undated; xyz []; jan]))) = Ok out
      ∧ state Datetime.fromisoformat (Some out) = Ok v.
Proof.
  assert (Forall (λ x, has_station "ABC" x = true → str_dated x)
            [undated; xyz []; jan]) as H.
  { repeat constructor; intros _; eexists; reflexivity. }
  assert (jan ∈ [undated; xyz []; jan]) as Hin by set_solver.
  split; [exact H|]. split; [exact Hin|]. split; [reflexivity|]. split; [discriminate|].
  apply (state_after_update Datetime.fromisoformat "ABC" [undated; xyz []; jan] jan H Hin);
    [reflexivity|discriminate].
Defined.

(** ** The entity's identity and the platform's setup *)

Section identity_facts.
Implicit Types (s t p q : string).

Lemma string_length_app s t :
  String.length (s ++ t) = (String.length s + String.length t)%nat.
Proof. induction s as [|c s IH]; simpl; [done|]. by rewrite IH. Qed.

Lemma string_app_inj_r q s t : s ++ q = t ++ q → s = t.
Proof.
  revert t. induction s as [|c s IH]; intros [|c' t] H.
  - done.
  - apply (f_equal String.length) in H.
    change (String.length q = S (String.length (t ++ q))) in H.
    rewrite string_length_app in H. lia.
  - apply (f_equal String.length) in H.
    change (S (String.length (s ++ q)) = String.length q) in H.
    rewrite string_length_app in H. lia.
  - change (String c (s ++ q) = String c' (t ++ q)) in H.
    injection H as -> H. f_equal. by apply IH.
Qed.

Lemma occurs_app c s t : occurs c (s ++ t) = occurs c s || occurs c t.
Proof.
  induction s as [|c' s IH]; simpl; [done|]. by rewrite IH, orb_assoc.
Qed.

Lemma replace_space_no_space s : occurs " " (Platform.replace_space s) = false.
Proof.
  induction s as [|c s IH]; simpl; [done|]. rewrite IH, orb_false_r.
  destruct (Ascii.eqb c " ") eqn:E; [done|exact E].
Qed.

Lemma replace_space_length s :
  String.length (Platform.replace_space s) = String.length s.
Proof. induction s as [|c s IH]; simpl; [done|]. by rewrite IH. Qed.
End identity_facts.

(** X11.  Sensors and coordinators of different stations never share a
    name: the entity's name and the coordinator's name each determine the
    station short name. *)
Theorem names_determine_station (DOMAIN : string) (lower : string → string)
    (s1 s2 : string) :
  (Platform.name (Platform.RNLILaunchSensor DOMAIN lower s1)
   = Platform.name (Platform.RNLILaunchSensor DOMAIN lower s2) → s1 = s2)
  ∧ (Platform.coordinator_name DOMAIN s1 = Platform.coordinator_name DOMAIN s2 →
     s1 = s2).
Proof.
  split.
  - unfold Platform.name. simpl. intros H.
    apply (String.app_inj "RNLI ") in H. by apply string_app_inj_r in H.
  - unfold Platform.coordinator_name. intros H.
    apply (String.app_inj DOMAIN) in H. by apply (String.app_inj "_") in H.
Qed.

(** X12.  The unique id never has a space from the station name: when the
    domain has none, the unique id has none, whatever the station and
    whatever [lower] makes of it; and it is as long as the domain, the
    lowered station and the fifteen characters around them. *)
Theorem unique_id_has_no_space (DOMAIN : string) (lower : string → string)
    (s : string) :
  occurs " " DOMAIN = false →
  occurs " " (Platform.unique_id (Platform.RNLILaunchSensor DOMAIN lower s)) = false
  ∧ String.length (Platform.unique_id (Platform.RNLILaunchSensor DOMAIN lower s))
    = (String.length DOMAIN + String.length (lower s) + 15)%nat.
Proof.
  intros HD. unfold Platform.unique_id. simpl. split.
  - rewrite !occurs_app, HD, replace_space_no_space. reflexivity.
  - rewrite !string_length_app, replace_space_length. simpl. lia.
Qed.

Lemma unique_id_has_no_space_witness :
  occurs " " Integration.DOMAIN = false
  ∧ occurs " " (Platform.unique_id
                  (Platform.RNLILaunchSensor Integration.DOMAIN (λ s, s) "St Ives")) = false
  ∧ String.length (Platform.unique_id
                     (Platform.RNLILaunchSensor Integration.DOMAIN (λ s, s) "St Ives"))
    = (String.length Integration.DOMAIN + String.length "St Ives" + 15)%nat.
Proof.
  split; [reflexivity|].
  apply (unique_id_has_no_space Integration.DOMAIN (λ s, s) "St Ives"). reflexivity.
Defined.

(** ** The entry registry *)

(** X13.  Setting an entry up and unloading it again gives back the
    registry as it was, when the entry was not registered before and the
    integration's slot exists; the entry is stored even when forwarding
    to the platforms raises; and when hass.data has no slot yet the round
    trip leaves an empty slot behind. *)
Theorem setup_unload_round_trip {V E : Type}
    (entries : gmap string V) (entry_id : string) (entry_data : V)
    (forward : option E) :
  entries !! entry_id = None →
  let after := (Integration.async_setup_entry (Some entries) entry_id entry_data forward).1 in
  (∃ m, after = Some m ∧ m !! entry_id = Some entry_data)
  ∧ Integration.async_unload_entry (E:=E) after entry_id (Ok true)
    = (Some entries, Ok true)
  ∧ Integration.async_unload_entry (E:=E)
      (Integration.async_setup_entry None entry_id entry_data forward).1
      entry_id (Ok true)
    = (Some ∅, Ok true).
Proof.
  intros Hfresh after. subst after.
  unfold Integration.async_setup_entry, Integration.async_unload_entry.
  destruct forward; simpl; rewrite !lookup_insert_eq, !delete_insert_eq;
    rewrite delete_id by done; rewrite delete_empty;
    (split; [eexists; split; [done|apply lookup_insert_eq]|done]).
Qed.

Lemma setup_unload_round_trip_witness :
  ({[ "e1" := 1%nat ]} : gmap string nat) !! "e2" = None
  ∧ let after :=
      (Integration.async_setup_entry (E:=exn) (Some {[ "e1" := 1%nat ]}) "e2" 2%nat None).1 in
    (∃ m, after = Some m ∧ m !! "e2" = Some 2%nat)
    ∧ Integration.async_unload_entry (E:=exn) after "e2" (Ok true)
      = (Some {[ "e1" := 1%nat ]}, Ok true)
    ∧ Integration.async_unload_entry (E:=exn)
        (Integration.async_setup_entry (E:=exn) None "e2" 2%nat None).1 "e2" (Ok true)
      = (Some ∅, Ok true).
Proof.
  split; [reflexivity|].
  apply (setup_unload_round_trip (E:=exn) {[ "e1" := 1%nat ]} "e2" 2%nat None).
  reflexivity.
Defined.

(** X14.  Unloading an entry that is not registered raises KeyError and
    leaves the registry as it was: an entry cannot be unloaded twice, nor
    before any entry was set up.  When the platforms do not unload, nothing
    is removed. *)
Theorem unload_unregistered_raises {V E : Type}
    (slot : option (gmap string V)) (entry_id : string) :
  (slot = None →
   Integration.async_unload_entry (E:=E) slot entry_id (Ok true)
   = (slot, Raise (Integration.KeyError Integration.DOMAIN)))
  ∧ (∀ entries, slot = Some entries → entries !! entry_id = None →
     Integration.async_unload_entry (E:=E) slot entry_id (Ok true)
     = (slot, Raise (Integration.KeyError entry_id)))
  ∧ (∀ entries, slot = Some entries → is_Some (entries !! entry_id) →
     ∃ slot', Integration.async_unload_entry (E:=E) slot entry_id (Ok true)
              = (slot', Ok true)
       ∧ Integration.async_unload_entry (E:=E) slot' entry_id (Ok true)
         = (slot', Raise (Integration.KeyError entry_id)))
  ∧ Integration.async_unload_entry (E:=E) slot entry_id (Ok false) = (slot, Ok false).
Proof.
  unfold Integration.async_unload_entry. repeat split.
  - by intros ->.
  - by intros entries -> ->.
  - intros entries -> [v Hv]. rewrite Hv.
    exists (Some (delete entry_id entries)). split; [done|].
    by rewrite lookup_delete_eq.
Qed.

(** X15.  Setting an entry up changes no other entry of the registry, and
    a second setup of the same entry replaces its data. *)
Theorem setup_keeps_other_entries {V E : Type}
    (slot : option (gmap string V)) (entry_id other : string) (d1 d2 : V)
    (f1 f2 : option E) :
  other ≠ entry_id →
  let once := (Integration.async_setup_entry slot entry_id d1 f1).1 in
  let twice := (Integration.async_setup_entry once entry_id d2 f2).1 in
  default ∅ once !! other = default ∅ slot !! other
  ∧ default ∅ twice !! other = default ∅ slot !! other
  ∧ default ∅ twice !! entry_id = Some d2
  ∧ twice = (Integration.async_setup_entry slot entry_id d2 f2).1.
Proof.
  intros Hne once twice. subst once twice.
  unfold Integration.async_setup_entry.
  destruct f1, f2; simpl; rewrite ?insert_insert_eq, ?lookup_insert_eq;
    rewrite ?lookup_insert_ne by done; done.
Qed.

Lemma setup_keeps_other_entries_witness :
  "e1" ≠ "e2"
  ∧ let once := (Integration.async_setup_entry (E:=exn)
                   (Some {[ "e1" := 1%nat ]}) "e2" 2%nat None).1 in
    let twice := (Integration.async_setup_entry (E:=exn) once "e2" 3%nat None).1 in
    default ∅ once !! "e1" = default ∅ (Some ({[ "e1" := 1%nat ]} : gmap string nat)) !! "e1"
    ∧ default ∅ twice !! "e1"
      = default ∅ (Some ({[ "e1" := 1%nat ]} : gmap string nat)) !! "e1"
    ∧ default ∅ twice !! "e2" = Some 3%nat
    ∧ twice = (Integration.async_setup_entry (E:=exn)
                 (Some {[ "e1" := 1%nat ]}) "e2" 3%nat None).1.
Proof.
  assert ("e1" ≠ "e2") as H by discriminate.
  split; [exact H|].
  exact (setup_keeps_other_entries (E:=exn) (Some {[ "e1" := 1%nat ]}) "e2" "e1"
           2%nat 3%nat None None H).
Defined.

(** ** The configuration flow's station list *)

Section flow_facts.
Import ConfigFlow.
Implicit Types (a : stations) (l : list json) (k t : json).
Local Open Scope list_scope.

Lemma contains_app k a1 a2 : contains k (a1 ++ a2) = contains k a1 || contains k a2.
Proof. apply existsb_app. Qed.

Lemma contains_false k a :
  contains k a = false ↔ Forall (λ p, py_eq p.1 k = false) a.
Proof.
  unfold contains. induction a as [|p a IH]; simpl.
  - split; [constructor|done].
  - rewrite orb_false_iff, IH, Forall_cons. done.
Qed.

Lemma py_eq_refl_hashable k : hashable k = true → py_eq k k = true.
Proof.
  destruct k as [|b|q|s| |]; simpl; try done; intros _.
  - by destruct b.
  - apply Qeq_bool_iff. reflexivity.
  - apply String.eqb_refl.
Qed.

Lemma distinct_keys_snoc a p :
  distinct_keys a → contains p.1 a = false → distinct_keys (a ++ [p]).
Proof.
  intros Ha Hp. apply contains_false in Hp.
  induction Ha as [|q a Hq Ha IH]; simpl.
  - repeat constructor.
  - apply Forall_cons in Hp as [Hqp Hp]. constructor; [|by apply IH].
    apply Forall_app. split; [done|]. by constructor.
Qed.

Lemma collect_app a l1 l2 :
  collect a (l1 ++ l2)
  = match collect a l1 with
    | (a', None) => collect a' l2
    | (a', Some err) => (a', Some err)
    end.
Proof.
  revert a. induction l1 as [|e l1 IH]; intros a; [done|].
  rewrite <- app_comm_cons. destruct e as [| | | | |x]; try done.
  cbn [collect]. destruct (truthy _ && truthy _); [|apply IH].
  destruct (hashable _); [|done]. destruct (contains _ a); apply IH.
Qed.

Lemma collect_extends a l :
  ∃ added, (collect a l).1 = a ++ added ∧ Forall station_entry added.
Proof.
  revert a. induction l as [|e l IH]; intros a.
  - exists []. by rewrite app_nil_r.
  - destruct e as [| | | | |x]; try (exists []; by rewrite app_nil_r).
    cbn [collect].
    destruct (truthy (get x "shortName") && truthy (get x "title")) eqn:T; [|apply IH].
    destruct (hashable (get x "shortName")) eqn:H;
      [|exists []; by rewrite app_nil_r].
    destruct (contains _ a); [apply IH|].
    destruct (IH (a ++ [(get x "shortName", get x "title")])) as (added & -> & Hadded).
    exists ((get x "shortName", get x "title") :: added).
    rewrite <- app_assoc. split; [done|]. constructor; [|done].
    apply andb_true_iff in T as [T1 T2]. by repeat split.
Qed.

Lemma collect_distinct a l : distinct_keys a → distinct_keys (collect a l).1.
Proof.
  revert a. induction l as [|e l IH]; intros a Ha; [done|].
  destruct e as [| | | | |x]; try done. cbn [collect].
  destruct (truthy _ && truthy _); [|by apply IH].
  destruct (hashable _); [|done].
  destruct (contains _ a) eqn:C; [by apply IH|].
  apply IH. by apply distinct_keys_snoc.
Qed.

Lemma collect_again a l a1 a2 :
  collect a l = (a1, None) →
  (∀ k, contains k a1 = true → contains k a2 = true) →
  collect a2 l = (a2, None).
Proof.
  revert a. induction l as [|e l IH]; intros a H Hsub; [done|].
  destruct e as [| | | | |x]; try done. cbn [collect] in *.
  destruct (truthy _ && truthy _); [|by eapply IH].
  destruct (hashable (get x "shortName")) eqn:Hh; [|done].
  assert (contains (get x "shortName") a1 = true) as Hin.
  { destruct (contains _ a) eqn:C.
    - destruct (collect_extends a l) as (added & Hadd & _).
      rewrite H in Hadd. simpl in Hadd. subst a1. by rewrite contains_app, C.
    - destruct (collect_extends (a ++ [(get x "shortName", get x "title")]) l)
        as (added & Hadd & _).
      rewrite H in Hadd. simpl in Hadd. subst a1.
      rewrite !contains_app. unfold contains at 2. cbn [existsb fst].
      rewrite py_eq_refl_hashable by done. by rewrite orb_true_r. }
  rewrite (Hsub _ Hin). destruct (contains _ a); by eapply IH.
Qed.

Lemma fetch_stations_entries (r : response) :
  Forall station_entry (fetch_stations [] r).1.
Proof.
  unfold fetch_stations. destruct r as [err|data]; [constructor|].
  destruct (iter data) as [elems|err]; [|constructor].
  destruct (collect_extends [] elems) as (added & H & Hadded).
  destruct (collect [] elems) as [a' [e|]]; simpl in *; by subst a'.
Qed.
End flow_facts.

(** X16.  Whatever the endpoint answers, the stations the flow holds
    after fetching from an empty list each have a short name that is true
    and can be hashed and a title that is true, and no two of them have
    equal short names, also when the fetch raised. *)
Theorem fetched_stations_are_valid (r : response) :
  Forall station_entry (ConfigFlow.fetch_stations [] r).1
  ∧ distinct_keys (ConfigFlow.fetch_stations [] r).1.
Proof.
  assert (∀ l, Forall station_entry (ConfigFlow.collect [] l).1
               ∧ distinct_keys (ConfigFlow.collect [] l).1) as H.
  { intros l. split; [|apply collect_distinct; constructor].
    destruct (collect_extends [] l) as (added & -> & Hadded). done. }
  unfold ConfigFlow.fetch_stations.
  destruct r as [err|data]; [split; constructor|].
  destruct (iter data) as [elems|err]; [|split; constructor].
  specialize (H elems). by destruct (ConfigFlow.collect [] elems) as [a [e|]].
Qed.

(** X17.  The loop only ever appends: the stations known before it are
    still there afterwards, in the same order and with the same titles,
    also when it raises; and running it over two lists in a row is running
    it over their concatenation. *)
Theorem collect_only_appends (a : ConfigFlow.stations) (l1 l2 : list json) :
  (∃ added, (ConfigFlow.collect a l1).1 = (a ++ added)%list)
  ∧ ConfigFlow.collect a (l1 ++ l2)%list
    = match ConfigFlow.collect a l1 with
      | (a', None) => ConfigFlow.collect a' l2
      | (a', Some err) => (a', Some err)
      end.
Proof.
  split; [|apply collect_app].
  destruct (collect_extends a l1) as (added & H & _). by exists added.
Qed.

(** X18.  The first title wins: a record whose short name is not yet
    known, with a true short name that can be hashed and a true title,
    puts exactly that pair in the list, whatever follows it in the
    response, later records of the same station included. *)
Theorem first_title_wins (l1 l2 : list dict) (x : dict) (a1 : ConfigFlow.stations) :
  ConfigFlow.collect [] (JObj <$> l1) = (a1, None) →
  ConfigFlow.contains (get x "shortName") a1 = false →
  station_entry (get x "shortName", get x "title") →
  (get x "shortName", get x "title")
    ∈ (ConfigFlow.collect [] (JObj <$> (l1 ++ x :: l2)%list)).1.
Proof.
  intros H1 Hnew (T1 & Hh & T2). simpl in T1, Hh, T2.
  rewrite fmap_app, collect_app, H1, fmap_cons. cbn [ConfigFlow.collect].
  rewrite T1, T2, Hh, Hnew. simpl.
  destruct (collect_extends (a1 ++ [(get x "shortName", get x "title")])%list
              (JObj <$> l2)) as (added & -> & _).
  set_solver.
Qed.

Lemma first_title_wins_witness :
  ConfigFlow.collect [] (JObj <$> [titled_xyz]) = ([(JStr "XYZ", JStr "X Station")], None)
  ∧ ConfigFlow.contains (get jan "shortName") [(JStr "XYZ", JStr "X Station")] = false
  ∧ station_entry (get jan "shortName", get jan "title")
  ∧ (get jan "shortName", get jan "title")
      ∈ (ConfigFlow.collect [] (JObj <$> ([titled_xyz] ++ jan :: [renamed; feb])%list)).1.
Proof.
  assert (station_entry (get jan "shortName", get jan "title")) as H by done.
  split; [reflexivity|]. split; [reflexivity|]. split; [exact H|].
  apply (first_title_wins [titled_xyz] [renamed; feb] jan
           [(JStr "XYZ", JStr "X Station")]); [reflexivity|reflexivity|exact H].
Defined.

(** X19.  Collecting is idempotent: when the loop ran over a response
    without raising, running it again over the same response, from the
    stations it produced, adds nothing and does not raise. *)
Theorem collect_twice_adds_nothing
    (a a1 : ConfigFlow.stations) (l : list json) :
  ConfigFlow.collect a l = (a1, None) →
  ConfigFlow.collect a1 l = (a1, None).
Proof. intros H. by eapply collect_again. Qed.

Lemma collect_twice_adds_nothing_witness :
  ConfigFlow.collect [] [JObj jan; JObj renamed; JObj titled_xyz; JObj undated]
  = ([(JStr "ABC", JStr "A Station"); (JStr "XYZ", JStr "X Station")], None)
  ∧ ConfigFlow.collect [(JStr "ABC", JStr "A Station"); (JStr "XYZ", JStr "X Station")]
      [JObj jan; JObj renamed; JObj titled_xyz; JObj undated]
    = ([(JStr "ABC", JStr "A Station"); (JStr "XYZ", JStr "X Station")], None).
Proof.
  split; [reflexivity|].
  apply (collect_twice_adds_nothing []). reflexivity.
Defined.

(** X20.  A response that breaks off leaves a partial list behind: when
    an element that is not an object follows records that were read
    without error, the fetch raises AttributeError and the flow keeps the
    stations of those records; if there is one, a later step does not
    fetch again, whatever the endpoint would answer. *)
Theorem fetch_keeps_partial_list
    (good : list dict) (bad : json) (rest : list json)
    (a1 : ConfigFlow.stations) :
  ConfigFlow.collect [] (JObj <$> good) = (a1, None) →
  (∀ x, bad ≠ JObj x) →
  ConfigFlow.fetch_if_empty [] (Body (JArr ((JObj <$> good) ++ bad :: rest)%list))
  = (a1, Raise (ConfigFlow.Interpreter (AttributeError "get")))
  ∧ (a1 ≠ [] → ∀ r, ConfigFlow.fetch_if_empty a1 r = (a1, Ok None)).
Proof.
  intros H Hbad. split.
  - unfold ConfigFlow.fetch_if_empty, ConfigFlow.fetch_stations. simpl.
    rewrite collect_app, H.
    destruct bad as [| | | | |x]; try done. by destruct (Hbad x).
  - intros Hne r. unfold ConfigFlow.fetch_if_empty. by destruct a1.
Qed.

Lemma fetch_keeps_partial_list_witness :
  ConfigFlow.collect [] (JObj <$> [jan; feb]) = ([(JStr "ABC", JStr "A Station")], None)
  ∧ (∀ x, JNull ≠ JObj x)
  ∧ ConfigFlow.fetch_if_empty []
      (Body (JArr ((JObj <$> [jan; feb]) ++ JNull :: [JObj titled_xyz])%list))
    = ([(JStr "ABC", JStr "A Station")],
       Raise (ConfigFlow.Interpreter (AttributeError "get")))
  ∧ ([(JStr "ABC", JStr "A Station")] ≠ [] →
     ∀ r, ConfigFlow.fetch_if_empty [(JStr "ABC", JStr "A Station")] r
          = ([(JStr "ABC", JStr "A Station")], Ok None)).
Proof.
  assert (∀ x, JNull ≠ JObj x) as H by discriminate.
  split; [reflexivity|]. split; [exact H|].
  apply (fetch_keeps_partial_list [jan; feb] JNull [JObj titled_xyz]
           [(JStr "ABC", JStr "A Station")]); [reflexivity|exact H].
Defined.

(** X21.  From the flow to the platform: for every station the flow
    holds after a fetch, the entry it creates passes the platform's check
    for a station name; when the short name is a string the entry is titled
    "RNLI " and the name, and the platform adds the sensor of that station
    once the host platform's calls returned; when it is not a string,
    building the sensor raises AttributeError. *)
Theorem offered_station_sets_up
    (DOMAIN : string) (lower : string → string) (str_of_other : json → string)
    (r : response) (k t : json) :
  (k, t) ∈ (ConfigFlow.fetch_stations [] r).1 →
  let entry := ConfigFlow.async_create_entry str_of_other k in
  (∀ ok, Platform.async_setup_entry DOMAIN lower entry.2 ok ≠ Platform.NoStation)
  ∧ Platform.async_setup_entry DOMAIN lower entry.2 false = Platform.HostRaised
  ∧ (∀ n, k = JStr n →
       entry.1 = "RNLI " ++ n
       ∧ Platform.async_setup_entry DOMAIN lower entry.2 true
         = Platform.EntityAdded (Platform.RNLILaunchSensor DOMAIN lower n))
  ∧ ((∀ n, k ≠ JStr n) →
       Platform.async_setup_entry DOMAIN lower entry.2 true
       = Platform.ConstructorRaised (AttributeError "lower")).
Proof.
  intros Hin entry. subst entry.
  pose proof (proj1 (Forall_forall _ _) (fetch_stations_entries r) _ Hin)
    as (Hk & _ & _).
  simpl in Hk.
  assert (∀ ok, Platform.async_setup_entry DOMAIN lower
                  (ConfigFlow.async_create_entry str_of_other k).2 ok
                = if negb ok then Platform.HostRaised
                  else match k with
                       | JStr n => Platform.EntityAdded (Platform.RNLILaunchSensor DOMAIN lower n)
                       | _ => Platform.ConstructorRaised (AttributeError "lower")
                       end) as Hsetup.
  { intros ok. unfold Platform.async_setup_entry.
    change (get (ConfigFlow.async_create_entry str_of_other k).2 "station_short_name")
      with k.
    by rewrite Hk. }
  split; [|split; [|split]].
  - intros ok. rewrite Hsetup. destruct ok; [by destruct k|done].
  - by rewrite Hsetup.
  - intros n ->. split; [done|]. by rewrite Hsetup.
  - intros Hn. rewrite Hsetup. destruct k; try done. by destruct (Hn s).
Qed.

Lemma offered_station_sets_up_witness :
  (JStr "ABC", JStr "A Station")
    ∈ (ConfigFlow.fetch_stations [] (Body (JArr [JObj jan; JObj numbered]))).1
  ∧ let entry := ConfigFlow.async_create_entry (λ _, "") (JStr "ABC") in
    (∀ ok, Platform.async_setup_entry Integration.DOMAIN (λ s, s) entry.2 ok
           ≠ Platform.NoStation)
    ∧ Platform.async_setup_entry Integration.DOMAIN (λ s, s) entry.2 false
      = Platform.HostRaised
    ∧ (∀ n, JStr "ABC" = JStr n →
         entry.1 = "RNLI " ++ n
         ∧ Platform.async_setup_entry Integration.DOMAIN (λ s, s) entry.2 true
           = Platform.EntityAdded
               (Platform.RNLILaunchSensor Integration.DOMAIN (λ s, s) n))
    ∧ ((∀ n, JStr "ABC" ≠ JStr n) →
         Platform.async_setup_entry Integration.DOMAIN (λ s, s) entry.2 true
         = Platform.ConstructorRaised (AttributeError "lower")).
Proof.
  assert ((JStr "ABC", JStr "A Station")
            ∈ (ConfigFlow.fetch_stations [] (Body (JArr [JObj jan; JObj numbered]))).1)
    as H.
  { vm_compute. left. }
  split; [exact H|].
  exact (offered_station_sets_up Integration.DOMAIN (λ s, s) (λ _, "")
           (Body (JArr [JObj jan; JObj numbered])) (JStr "ABC") (JStr "A Station") H).
Defined.
